(** * semgrep-pretty-report: the finding normalization and aggregation pipeline

    A shallow embedding of [semgrep_pretty_report/semgrep_report.py]:
    the [Finding] and [SemgrepReport] dataclasses, [_parse_finding],
    [_parse_semgrep_data], [summary_stats], the data part of
    [_generate_html] and [generate_report], followed by the properties
    proved about them. *)

From Stdlib Require Import String Ascii ZArith List Sorted Permutation Lia Bool.
From stdpp Require Import base option list gmap strings sorting.

Set Warnings "-register-all".

Local Open Scope string_scope.
Local Open Scope list_scope.

(** ** Python values used by the pipeline *)

(** A JSON value as [json.load] returns it.  The pipeline never looks
    inside the elements of [errors] or inside [time]; they are carried
    around as such values.  [json.dumps] receives such a value too. *)
Inductive json : Type :=
  | JNull
  | JBool (b : bool)
  | JNum (n : Z)
  | JStr (s : string)
  | JArr (items : list json)
  | JObj (members : list (string * json)).

(** Exceptions.  Subscripting a dict with a key it does not hold raises
    [KeyError(key)], and that is all the exception carries.  Calling a
    method on a value that has none of that name raises [AttributeError];
    a file operation the operating system refuses raises [OSError];
    [json.load] on text that is not JSON, or not UTF-8, raises a
    [ValueError] ([JSONDecodeError], [UnicodeDecodeError]). *)
Inductive exn : Type :=
  | KeyError (key : string)
  | AttributeError (name : string)
  | OSError
  | ValueError.

(** The result of a call that may raise. *)
Inductive outcome (A : Type) : Type :=
  | Return (a : A)
  | Raise (e : exn).
Arguments Return {A} a.
Arguments Raise {A} e.

#[global] Instance outcome_ret : MRet outcome := @Return.

#[global] Instance outcome_bind : MBind outcome := fun A B k m =>
  match m with
  | Return a => k a
  | Raise e => Raise e
  end.

(** A key of a JSON object is a field that may be absent: [None] is "the
    dict has no such key".  [d.get(k, default)], [d.get(k)] and [d[k]]: *)
Definition dict_get {A : Type} (field : option A) (dflt : A) : A :=
  match field with
  | Some v => v
  | None => dflt
  end.

Definition dict_get_none {A : Type} (field : option A) : option A := field.

Definition getitem {A : Type} (key : string) (field : option A) : outcome A :=
  match field with
  | Some v => Return v
  | None => Raise (KeyError key)
  end.

(** ** The input document (section 6 of the specification)

    The JSON objects of the input, with the value types of section 6 and of
    the dataclass annotations; every key is optional. *)

Record position : Type := { line : option Z }.

Record metadata_obj : Type := {
  md_confidence : option string;
  md_category : option string;
  md_technology : option (list string);
  md_cwe : option (list string);
  md_owasp : option (list string);
  md_references : option (list string);
  md_shortlink : option string
}.

Record extra_obj : Type := {
  ex_message : option string;
  ex_severity : option string;
  ex_lines : option string;
  ex_fingerprint : option string;
  ex_metadata : option metadata_obj
}.

Record result_obj : Type := {
  r_check_id : option string;
  r_path : option string;
  r_start : option position;
  r_end : option position;
  r_extra : option extra_obj
}.

Record paths_obj : Type := { scanned : option (list string) }.

Record document : Type := {
  d_version : option string;
  d_results : option (list result_obj);
  d_errors : option (list json);
  d_paths : option paths_obj;
  d_time : option json
}.

(** The empty dict [{}] at each of these types. *)
Definition empty_metadata : metadata_obj :=
  {| md_confidence := None; md_category := None; md_technology := None;
     md_cwe := None; md_owasp := None; md_references := None;
     md_shortlink := None |}.

Definition empty_extra : extra_obj :=
  {| ex_message := None; ex_severity := None; ex_lines := None;
     ex_fingerprint := None; ex_metadata := None |}.

Definition empty_paths : paths_obj := {| scanned := None |}.

(** ** [class Finding] *)

Record Finding : Type := {
  check_id : string;
  path : string;
  start_line : Z;
  end_line : Z;
  severity : string;
  confidence : string;
  message : string;
  category : string;
  technology : list string;
  cwe : list string;
  owasp : list string;
  references : list string;
  shortlink : option string;
  lines : option string;
  fingerprint : option string
}.

(** [order = {"ERROR": 0, "WARNING": 1, "INFO": 2}; order.get(self.severity, 3)] *)
Definition severity_table : gmap string Z :=
  <["INFO" := 2%Z]> (<["WARNING" := 1%Z]> (<["ERROR" := 0%Z]> ∅)).

Definition severity_order (f : Finding) : Z :=
  dict_get (severity_table !! severity f) 3%Z.

(** [order = {"HIGH": 0, "MEDIUM": 1, "LOW": 2}; order.get(self.confidence, 3)] *)
Definition confidence_table : gmap string Z :=
  <["LOW" := 2%Z]> (<["MEDIUM" := 1%Z]> (<["HIGH" := 0%Z]> ∅)).

Definition confidence_order (f : Finding) : Z :=
  dict_get (confidence_table !! confidence f) 3%Z.

(** ** [class SemgrepReport] *)

Record SemgrepReport : Type := {
  version : string;
  findings : list Finding;
  errors : list json;
  scanned_paths : list string;
  total_files_scanned : nat;
  scan_time : option json
}.

(** ** [SemgrepReportGenerator._parse_finding]

    Keyword arguments are evaluated in the order they are written, so the
    first missing key in that order is the one whose [KeyError] escapes. *)
Definition _parse_finding (result : result_obj) : outcome Finding :=
  let extra := dict_get (r_extra result) empty_extra in
  let metadata := dict_get (ex_metadata extra) empty_metadata in
  check_id_v ← getitem "check_id" (r_check_id result);
  path_v ← getitem "path" (r_path result);
  start_v ← getitem "start" (r_start result);
  start_line_v ← getitem "line" (line start_v);
  end_v ← getitem "end" (r_end result);
  end_line_v ← getitem "line" (line end_v);
  let severity_v := dict_get (ex_severity extra) "UNKNOWN" in
  let confidence_v := dict_get (md_confidence metadata) "UNKNOWN" in
  message_v ← getitem "message" (ex_message extra);
  mret
    {| check_id := check_id_v;
       path := path_v;
       start_line := start_line_v;
       end_line := end_line_v;
       severity := severity_v;
       confidence := confidence_v;
       message := message_v;
       category := dict_get (md_category metadata) "unknown";
       technology := dict_get (md_technology metadata) [];
       cwe := dict_get (md_cwe metadata) [];
       owasp := dict_get (md_owasp metadata) [];
       references := dict_get (md_references metadata) [];
       shortlink := dict_get_none (md_shortlink metadata);
       lines := dict_get_none (ex_lines extra);
       fingerprint := dict_get_none (ex_fingerprint extra) |}.

(** ** [list.sort(key=...)] and [sorted(..., key=..., reverse=True)]

    Python's sort orders by [<] on the keys and is stable.  The model is the
    insertion sort with that behaviour: an element is placed in front of the
    first element whose key is not smaller, so it stays in front of the
    later elements of equal key. *)
Section ListSort.
Context {A K : Type} (ltb : K -> K -> bool) (key : A -> K).

Fixpoint sort_insert (x : A) (l : list A) : list A :=
  match l with
  | [] => [x]
  | y :: l' =>
      if ltb (key y) (key x) then y :: sort_insert x l' else x :: y :: l'
  end.

Fixpoint list_sort (l : list A) : list A :=
  match l with
  | [] => []
  | x :: l' => sort_insert x (list_sort l')
  end.
End ListSort.

(** The key [(f.severity_order, f.path, f.start_line)] and Python's [<] on
    such tuples: the first position where the two differ decides.  Strings
    compare by code point, which on UTF-8 encoded text is the byte-wise
    lexicographic order of [String.ltb]. *)
Definition sort_key : Type := Z * string * Z.

Definition finding_key (f : Finding) : sort_key :=
  (severity_order f, path f, start_line f).

Definition key_ltb (a b : sort_key) : bool :=
  match a, b with
  | (s1, p1, l1), (s2, p2, l2) =>
      if negb (Z.eqb s1 s2) then Z.ltb s1 s2
      else if negb (String.eqb p1 p2) then String.ltb p1 p2
      else Z.ltb l1 l2
  end.

(** ** [SemgrepReportGenerator._parse_semgrep_data] *)

(** [for result in ...: finding = self._parse_finding(result);
    report.findings.append(finding)] *)
Fixpoint parse_loop (results : list result_obj) (acc : list Finding)
  : outcome (list Finding) :=
  match results with
  | [] => mret acc
  | result :: rest =>
      finding ← _parse_finding result;
      parse_loop rest (acc ++ [finding])
  end.

Definition _parse_semgrep_data (data : document) : outcome SemgrepReport :=
  let report :=
    {| version := dict_get (d_version data) "unknown";
       findings := [];
       errors := dict_get (d_errors data) [];
       scanned_paths := dict_get (scanned (dict_get (d_paths data) empty_paths)) [];
       total_files_scanned :=
         length (dict_get (scanned (dict_get (d_paths data) empty_paths)) []);
       scan_time := Some (dict_get (d_time data) (JObj [])) |} in
  parsed ← parse_loop (dict_get (d_results data) []) (findings report);
  mret
    {| version := version report;
       findings := list_sort key_ltb finding_key parsed;
       errors := errors report;
       scanned_paths := scanned_paths report;
       total_files_scanned := total_files_scanned report;
       scan_time := scan_time report |}.

(** ** [collections.Counter]

    A [Counter] is a dict, so it keeps its keys in insertion order:
    counting an element already present updates its entry where it is, a
    new element gets a new entry at the end. *)
Fixpoint counter_add (c : list (string * nat)) (x : string) : list (string * nat) :=
  match c with
  | [] => [(x, 1)]
  | (k, n) :: c' =>
      if String.eqb k x then (k, S n) :: c' else (k, n) :: counter_add c' x
  end.

Definition Counter (xs : list string) : list (string * nat) :=
  foldl counter_add [] xs.

(** [Counter.most_common(n)] is [sorted(self.items(), key=itemgetter(1),
    reverse=True)[:n]]; a reversed sort is stable as well. *)
Definition most_common (n : nat) (c : list (string * nat)) : list (string * nat) :=
  take n (list_sort (fun a b => Nat.ltb b a) snd c).

(** ** [SemgrepReport.summary_stats]

    The property is a method on [self]; it is written in state-passing
    style over the report it is called on, so that what it leaves behind
    can be stated.  [getattr] is an attribute read. *)
Record method (A : Type) : Type := Method { call : SemgrepReport -> A * SemgrepReport }.
Arguments Method {A} call.
Arguments call {A} m self.

#[global] Instance method_ret : MRet method := fun A a =>
  Method (fun self => (a, self)).

#[global] Instance method_bind : MBind method := fun A B k m =>
  Method (fun self => call (k (call m self).1) (call m self).2).

Definition getattr {A : Type} (attr : SemgrepReport -> A) : method A :=
  Method (fun self => (attr self, self)).

Record stats : Type := {
  total_findings : nat;
  total_errors : nat;
  files_scanned : nat;
  files_affected : nat;
  severity_breakdown : list (string * nat);
  confidence_breakdown : list (string * nat);
  category_breakdown : list (string * nat);
  top_issues : list (string * nat)
}.

Definition summary_stats_method : method stats :=
  fs_sev ← getattr findings;
  let severity_counts := Counter (severity <$> fs_sev) in
  fs_conf ← getattr findings;
  let confidence_counts := Counter (confidence <$> fs_conf) in
  fs_cat ← getattr findings;
  let category_counts := Counter (category <$> fs_cat) in
  fs_path ← getattr findings;
  let files_affected_v := size (list_to_set (path <$> fs_path) : gset string) in
  fs_id ← getattr findings;
  let check_id_counts := Counter (check_id <$> fs_id) in
  let top_issues_v := most_common 5 check_id_counts in
  fs_len ← getattr findings;
  errs ← getattr errors;
  scanned_v ← getattr total_files_scanned;
  mret
    {| total_findings := length fs_len;
       total_errors := length errs;
       files_scanned := scanned_v;
       files_affected := files_affected_v;
       severity_breakdown := severity_counts;
       confidence_breakdown := confidence_counts;
       category_breakdown := category_counts;
       top_issues := top_issues_v |}.

Definition summary_stats (self : SemgrepReport) : stats :=
  (call summary_stats_method self).1.

(** ** [SemgrepReportGenerator._generate_html]

    The values substituted into the fixed template ([generated_at], the
    clock, is left out).  [findings_json] and [errors_json] are the JSON
    values handed to [json.dumps]: a list with one dict per finding, keys
    in the order of the dict display, and the errors list as it is. *)
Definition json_of_option (o : option string) : json :=
  match o with
  | Some s => JStr s
  | None => JNull
  end.

Definition finding_dict (f : Finding) : json :=
  JObj
    [ ("check_id", JStr (check_id f));
      ("path", JStr (path f));
      ("start_line", JNum (start_line f));
      ("end_line", JNum (end_line f));
      ("severity", JStr (severity f));
      ("confidence", JStr (confidence f));
      ("message", JStr (message f));
      ("category", JStr (category f));
      ("technology", JArr (JStr <$> technology f));
      ("cwe", JArr (JStr <$> cwe f));
      ("owasp", JArr (JStr <$> owasp f));
      ("references", JArr (JStr <$> references f));
      ("shortlink", json_of_option (shortlink f));
      ("lines", json_of_option (lines f));
      ("fingerprint", json_of_option (fingerprint f)) ].

Record template_data : Type := {
  td_report : SemgrepReport;
  td_stats : stats;
  findings_json : json;
  errors_json : json
}.

Definition _generate_html (report : SemgrepReport) : template_data :=
  let stats_v := summary_stats report in
  {| td_report := report;
     td_stats := stats_v;
     findings_json := JArr (finding_dict <$> findings report);
     errors_json := JArr (errors report) |}.

(** Reading a key of a JSON object back ([obj[key]] on the decoded payload). *)
Definition json_member (key : string) (j : json) : option json :=
  match j with
  | JObj members => snd <$> List.find (fun kv => String.eqb (fst kv) key) members
  | _ => None
  end.

(** ** The rest of [_generate_html]: the rows of the errors table

    After the template data is built, the page is put together by
    substitution.  The one step of it that can raise is the errors table:
    [error.get('type', 'Unknown')] and its two siblings are method calls
    on each entry of [report.errors], which only a dict has.  The rows are
    kept as the three values read, before they are formatted. *)
Definition error_row (error : json) : outcome (json * json * json) :=
  match error with
  | JObj _ =>
      let error_type := dict_get (json_member "type" error) (JStr "Unknown") in
      let error_path := dict_get (json_member "path" error) (JStr "Unknown") in
      let error_message := dict_get (json_member "message" error) (JStr "Unknown") in
      mret (error_type, error_path, error_message)
  | _ => Raise (AttributeError "get")
  end.

Fixpoint errors_rows (errors : list json) : outcome (list (json * json * json)) :=
  match errors with
  | [] => mret []
  | error :: rest =>
      row ← error_row error;
      rows ← errors_rows rest;
      mret (row :: rows)
  end.

(** The page [_generate_html] returns: the template data and the rows. *)
Record html_page : Type := {
  page_data : template_data;
  page_errors_rows : list (json * json * json)
}.

Definition html_content (report : SemgrepReport) : outcome html_page :=
  let data := _generate_html report in
  rows ← errors_rows (errors report);
  mret {| page_data := data; page_errors_rows := rows |}.

(** ** [SemgrepReportGenerator.generate_report]

    What is found at [json_file]: a path that cannot be opened, text
    [json.load] fails on, or a document.  What the operating system does
    when [output_file] is opened for writing and written: [open(..., 'w')]
    can raise; once it has succeeded the file is truncated, and the write
    can still raise.  A [print] can raise as well (a closed or
    non-encoding standard output).  A file holds a page, or is left
    truncated. *)
Inductive input_file_state : Type :=
  | CannotOpen
  | NotJson
  | Holds (data : document).

Inductive write_behaviour : Type :=
  | WriteSucceeds
  | OpenFails (e : exn)
  | WriteFails (e : exn).

(** The messages printed on standard output: by [generate_report], and the
    two of [main] after it. *)
Inductive stdout_message : Type :=
  | ReportGenerated
  | GeneratedSuccessfully
  | OpenInBrowser.

Record os_behaviour : Type := {
  on_write : string -> write_behaviour;
  on_print : stdout_message -> option exn
}.

Inductive file_content : Type :=
  | Truncated
  | Page (page : html_page).

Abbreviation file_system := (gmap string file_content).

Definition generate_report (input : input_file_state) (output_file : string)
    (os : os_behaviour) (fs : file_system) : outcome unit * file_system :=
  match input with
  | CannotOpen => (Raise OSError, fs)
  | NotJson => (Raise ValueError, fs)
  | Holds data =>
      match _parse_semgrep_data data with
      | Raise e => (Raise e, fs)
      | Return report =>
          match html_content report with
          | Raise e => (Raise e, fs)
          | Return page =>
              match on_write os output_file with
              | OpenFails e => (Raise e, fs)
              | WriteFails e => (Raise e, <[output_file := Truncated]> fs)
              | WriteSucceeds =>
                  let written := <[output_file := Page page]> fs in
                  match on_print os ReportGenerated with
                  | Some e => (Raise e, written)
                  | None => (Return tt, written)
                  end
              end
          end
      end
  end.

(** ** The counts shown in the page and the chart

    [stats["severity_breakdown"].get(sev, 0)] in [_generate_html], and
    [counts = [severity_breakdown.get(sev, 0) for sev in severities]] in
    [_generate_severity_chart]: lookups in a breakdown dict with a
    default. *)
Definition breakdown_get (b : list (string * nat)) (k : string) (dflt : nat) : nat :=
  dict_get (snd <$> List.find (fun kn => String.eqb kn.1 k) b) dflt.

Definition severities : list string := ["ERROR"; "WARNING"; "INFO"].

Definition chart_counts (severity_breakdown : list (string * nat)) : list nat :=
  (fun sev => breakdown_get severity_breakdown sev 0) <$> severities.

(** ** [main] of the command line, after the arguments are parsed

    [output_file] is the output path once the default has been applied.
    [main] leaves with status 1 when the input file does not exist or
    cannot be read as JSON, and when [generate_report] or one of the two
    prints after it raises; otherwise it returns, status 0.  What is
    written on standard error is left out: a failure there ends the
    process with status 1 as well. *)
Definition main (input : input_file_state) (output_file : string)
    (os : os_behaviour) (fs : file_system) : nat * file_system :=
  match input with
  | CannotOpen => (1, fs)
  | NotJson => (1, fs)
  | Holds _ =>
      match generate_report input output_file os fs with
      | (Return _, fs') =>
          match on_print os GeneratedSuccessfully, on_print os OpenInBrowser with
          | None, None => (0, fs')
          | _, _ => (1, fs')
          end
      | (Raise _, fs') => (1, fs')
      end
  end.

(** The severity a result record is given, and the finding it parses to,
    if any. *)
Definition severity_of_result (r : result_obj) : string :=
  default "UNKNOWN" (r_extra r ≫= ex_severity).

Definition finding_of (r : result_obj) : option Finding :=
  match _parse_finding r with
  | Return f => Some f
  | Raise _ => None
  end.

(** ** Vocabulary of the specification *)

(** The severity and confidence ranks as the specification words them. *)
Definition severity_rank (s : string) : Z :=
  if decide (s = "ERROR") then 0
  else if decide (s = "WARNING") then 1
  else if decide (s = "INFO") then 2
  else 3.

Definition confidence_rank (s : string) : Z :=
  if decide (s = "HIGH") then 0
  else if decide (s = "MEDIUM") then 1
  else if decide (s = "LOW") then 2
  else 3.

(** The composite key [(severity_rank, path, start_line)] and its
    ascending (lexicographic) order. *)
Definition composite_key (f : Finding) : sort_key :=
  (severity_rank (severity f), path f, start_line f).

Definition key_lt (a b : sort_key) : Prop :=
  match a, b with
  | (s1, p1, l1), (s2, p2, l2) =>
      (s1 < s2)%Z
      \/ (s1 = s2 /\ (String.compare p1 p2 = Lt \/ (p1 = p2 /\ (l1 < l2)%Z)))
  end.

Definition key_le (a b : sort_key) : Prop := key_lt a b \/ a = b.

Definition ascending (fs : list Finding) : Prop :=
  StronglySorted (fun f g => key_le (composite_key f) (composite_key g)) fs.

(** The five required fields of a result record, when all are present. *)
Definition required : Type := string * string * Z * Z * string.

Definition required_fields (r : result_obj) : option required :=
  c ← r_check_id r;
  p ← r_path r;
  s ← r_start r ≫= line;
  e ← r_end r ≫= line;
  m ← r_extra r ≫= ex_message;
  Some (c, p, s, e, m).

Definition finding_required (f : Finding) : required :=
  (check_id f, path f, start_line f, end_line f, message f).

(** The same five fields read back from a dict of the findings payload. *)
Definition payload_required (j : json) : option required :=
  match json_member "check_id" j, json_member "path" j,
        json_member "start_line" j, json_member "end_line" j,
        json_member "message" j with
  | Some (JStr c), Some (JStr p), Some (JNum s), Some (JNum e), Some (JStr m) =>
      Some (c, p, s, e, m)
  | _, _, _, _, _ => None
  end.

(** The distinct values of a list in the order in which they are first
    seen, and the number of occurrences of a value. *)
Fixpoint first_seen (xs : list string) : list string :=
  match xs with
  | [] => []
  | x :: xs' => x :: filter (fun y => y ≠ x) (first_seen xs')
  end.

Definition occurrences (k : string) (xs : list string) : nat :=
  length (filter (fun y => y = k) xs).

Definition breakdown_of (xs : list string) : list (string * nat) :=
  (fun k => (k, occurrences k xs)) <$> first_seen xs.

(** What a counter started at [c] holds after counting [xs]: the entries of
    [c] with their counts raised, then the new values in first-seen order. *)
Definition counter_spec (c : list (string * nat)) (xs : list string) : list (string * nat) :=
  ((fun kn => (kn.1, kn.2 + occurrences kn.1 xs)) <$> c)
  ++ ((fun k => (k, occurrences k xs)) <$> filter (fun k => k ∉ c.*1) (first_seen xs)).

(** Descending order of the counts of two counter entries. *)
Definition count_ge (a b : string * nat) : Prop := b.2 <= a.2.

(** The first key found missing when the required fields of a record are
    read in the order check_id, path, start, line, end, line, message. *)
Definition first_missing_key (r : result_obj) : option string :=
  match r_check_id r, r_path r with
  | None, _ => Some "check_id"
  | Some _, None => Some "path"
  | Some _, Some _ =>
      match r_start r with
      | None => Some "start"
      | Some {| line := None |} => Some "line"
      | Some {| line := Some _ |} =>
          match r_end r with
          | None => Some "end"
          | Some {| line := None |} => Some "line"
          | Some {| line := Some _ |} =>
              match r_extra r ≫= ex_message with
              | None => Some "message"
              | Some _ => None
              end
          end
      end
  end.



(** The keys a [KeyError] of [_parse_finding] can name. *)
Definition required_keys : list string :=
  ["check_id"; "path"; "start"; "line"; "end"; "message"].

(** The positions, in the results sequence, of the records that miss a
    required field. *)
Definition offending_positions (data : document) : list nat :=
  (fun ir => ir.1) <$>
    filter (fun ir => required_fields ir.2 = None)
           (imap (fun i r => (i, r)) (dict_get (d_results data) [])).

(** A finding with its confidence replaced. *)
Definition map_confidence (g : string -> string) (f : Finding) : Finding :=
  {| check_id := check_id f; path := path f; start_line := start_line f;
     end_line := end_line f; severity := severity f;
     confidence := g (confidence f); message := message f;
     category := category f; technology := technology f; cwe := cwe f;
     owasp := owasp f; references := references f; shortlink := shortlink f;
     lines := lines f; fingerprint := fingerprint f |}.


(** Reading a finding back from a dict of the findings payload, as a
    consumer of the payload does; [None] and a string are told apart by
    [null]. *)
Definition string_of_json (j : json) : option string :=
  match j with
  | JStr s => Some s
  | _ => None
  end.

Definition int_of_json (j : json) : option Z :=
  match j with
  | JNum n => Some n
  | _ => None
  end.

Definition strings_of_json (j : json) : option (list string) :=
  match j with
  | JArr items => mapM string_of_json items
  | _ => None
  end.

Definition optional_of_json (j : json) : option (option string) :=
  match j with
  | JNull => Some None
  | JStr s => Some (Some s)
  | _ => None
  end.

Definition finding_of_dict (j : json) : option Finding :=
  check_id_v ← json_member "check_id" j ≫= string_of_json;
  path_v ← json_member "path" j ≫= string_of_json;
  start_line_v ← json_member "start_line" j ≫= int_of_json;
  end_line_v ← json_member "end_line" j ≫= int_of_json;
  severity_v ← json_member "severity" j ≫= string_of_json;
  confidence_v ← json_member "confidence" j ≫= string_of_json;
  message_v ← json_member "message" j ≫= string_of_json;
  category_v ← json_member "category" j ≫= string_of_json;
  technology_v ← json_member "technology" j ≫= strings_of_json;
  cwe_v ← json_member "cwe" j ≫= strings_of_json;
  owasp_v ← json_member "owasp" j ≫= strings_of_json;
  references_v ← json_member "references" j ≫= strings_of_json;
  shortlink_v ← json_member "shortlink" j ≫= optional_of_json;
  lines_v ← json_member "lines" j ≫= optional_of_json;
  fingerprint_v ← json_member "fingerprint" j ≫= optional_of_json;
  Some
    {| check_id := check_id_v; path := path_v; start_line := start_line_v;
       end_line := end_line_v; severity := severity_v;
       confidence := confidence_v; message := message_v;
       category := category_v; technology := technology_v; cwe := cwe_v;
       owasp := owasp_v; references := references_v;
       shortlink := shortlink_v; lines := lines_v;
       fingerprint := fingerprint_v |}.

Definition findings_of_payload (j : json) : option (list Finding) :=
  match j with
  | JArr items => mapM finding_of_dict items
  | _ => None
  end.

(** ** Sample inputs

    A complete result record without [metadata], and a document holding
    only results. *)
Definition result_of (sev : option string) (id p : string) (l : Z) (msg : option string)
  : result_obj :=
  {| r_check_id := Some id; r_path := Some p;
     r_start := Some {| line := Some l |}; r_end := Some {| line := Some l |};
     r_extra := Some {| ex_message := msg; ex_severity := sev; ex_lines := None;
                        ex_fingerprint := None; ex_metadata := None |} |}.

Definition doc_of (results : list result_obj) : document :=
  {| d_version := None; d_results := Some results; d_errors := None;
     d_paths := None; d_time := None |}.

Definition three_severities : document :=
  doc_of [ result_of (Some "INFO") "rule.a" "app.py" 7 (Some "first");
           result_of (Some "ERROR") "rule.b" "app.py" 7 (Some "second");
           result_of (Some "WARNING") "rule.c" "app.py" 7 (Some "third") ].

(** Documents whose only offending record is the first, respectively the
    second, of the results; and a document with every top-level key but
    [time]. *)
Definition missing_at_0 : document :=
  doc_of [ result_of (Some "ERROR") "rule.a" "a.py" 1 None ].

Definition missing_at_1 : document :=
  doc_of [ result_of (Some "ERROR") "rule.b" "b.py" 2 (Some "fine");
           result_of (Some "ERROR") "rule.a" "a.py" 1 None ].

Definition full_document : document :=
  {| d_version := Some "1.45.0";
     d_results := Some [ result_of None "rule.a" "a.py" 3 (Some "text") ];
     d_errors := Some [ JObj [("type", JStr "Syntax"); ("path", JStr "b.py")];
                        JObj [("message", JStr "timeout")] ];
     d_paths := Some {| scanned := Some ["a.py"; "b.py"; "c.py"] |};
     d_time := None |}.
(** A record with optional values present, and two documents with the same
    records in opposite orders. *)
Definition rich_result : result_obj :=
  {| r_check_id := Some "rule.a"; r_path := Some "a.py";
     r_start := Some {| line := Some 3%Z |}; r_end := Some {| line := Some 4%Z |};
     r_extra := Some
       {| ex_message := Some "text"; ex_severity := Some "CRITICAL";
          ex_lines := Some "x = 1"; ex_fingerprint := None;
          ex_metadata := Some
            {| md_confidence := Some "HIGH"; md_category := None;
               md_technology := Some ["python"]; md_cwe := None;
               md_owasp := None; md_references := None;
               md_shortlink := Some "https://sg.run/x" |} |} |}.

Definition two_files_then_error : document :=
  doc_of [ result_of (Some "INFO") "rule.a" "a.py" 1 (Some "m");
           result_of (Some "INFO") "rule.b" "a.py" 9 (Some "m");
           result_of (Some "ERROR") "rule.c" "z.py" 5 (Some "m") ].

Definition error_then_two_files : document :=
  doc_of [ result_of (Some "ERROR") "rule.c" "z.py" 5 (Some "m");
           result_of (Some "INFO") "rule.b" "a.py" 9 (Some "m");
           result_of (Some "INFO") "rule.a" "a.py" 1 (Some "m") ].

(** An operating system that lets every file be written and every message
    be printed, and one on which the write fails once the file is open; a
    document whose errors hold a string. *)
Definition obliging_os : os_behaviour :=
  {| on_write := fun _ => WriteSucceeds; on_print := fun _ => None |}.

Definition full_disk_os : os_behaviour :=
  {| on_write := fun _ => WriteFails OSError; on_print := fun _ => None |}.

Definition string_in_errors : document :=
  {| d_version := Some "1.45.0";
     d_results := Some [ result_of None "rule.a" "a.py" 3 (Some "text") ];
     d_errors := Some [ JStr "oops" ];
     d_paths := None;
     d_time := None |}.

(** * Properties *)

(** ** The stable sort *)

Section ListSortFacts.
Context {A K : Type} `{EqDecision K} (ltb : K -> K -> bool) (key : A -> K).
Hypothesis ltb_irrefl : forall k, ltb k k = false.
Hypothesis ltb_trans :
  forall a b c, ltb a b = true -> ltb b c = true -> ltb a c = true.
Hypothesis ltb_total :
  forall a b, ltb a b = false -> ltb b a = false -> a = b.

Let le (x y : A) : Prop := ltb (key y) (key x) = false.

Lemma sort_insert_perm x l : sort_insert ltb key x l ≡ₚ x :: l.
Proof.
  induction l as [|y l IH]; simpl; [done|].
  destruct (ltb (key y) (key x)); [|done].
  rewrite IH. apply Permutation_swap.
Qed.

Lemma list_sort_perm l : list_sort ltb key l ≡ₚ l.
Proof.
  induction l as [|x l IH]; simpl; [done|].
  by rewrite sort_insert_perm, IH.
Qed.

Lemma list_sort_length l : length (list_sort ltb key l) = length l.
Proof. by rewrite list_sort_perm. Qed.

Lemma sort_insert_filter k x l :
  filter (fun y => key y = k) (sort_insert ltb key x l)
  = filter (fun y => key y = k) (x :: l).
Proof.
  induction l as [|y l IH]; simpl; [done|].
  destruct (ltb (key y) (key x)) eqn:Hlt; [|done].
  rewrite (filter_cons _ y), IH, !filter_cons.
  destruct (decide (key y = k)) as [Hy|Hy], (decide (key x = k)) as [Hx|Hx];
    try done.
  rewrite Hy, Hx, ltb_irrefl in Hlt. done.
Qed.

(** Stability: the elements of any one key come out in their input order. *)
Lemma list_sort_stable k l :
  filter (fun y => key y = k) (list_sort ltb key l)
  = filter (fun y => key y = k) l.
Proof.
  induction l as [|x l IH]; simpl; [done|].
  by rewrite sort_insert_filter, !filter_cons, IH.
Qed.

Lemma sort_le_trans x y z : le x y -> le y z -> le x z.
Proof.
  unfold le. intros Hxy Hyz.
  destruct (ltb (key z) (key x)) eqn:Hzx; [|done].
  destruct (ltb (key x) (key y)) eqn:Hxy'.
  - by rewrite (ltb_trans _ _ _ Hzx Hxy') in Hyz.
  - rewrite <- (ltb_total _ _ Hxy Hxy') in Hzx. by rewrite Hzx in Hyz.
Qed.

Lemma sort_ltb_le x y : ltb (key x) (key y) = true -> le x y.
Proof.
  unfold le. intros Hxy.
  destruct (ltb (key y) (key x)) eqn:Hyx; [|done].
  by rewrite <- (ltb_irrefl (key x)), (ltb_trans _ _ _ Hxy Hyx).
Qed.

Lemma sort_insert_sorted x l :
  StronglySorted le l -> StronglySorted le (sort_insert ltb key x l).
Proof.
  induction 1 as [|y l Hl IH Hy]; simpl.
  - repeat constructor.
  - destruct (ltb (key y) (key x)) eqn:Hlt.
    + constructor; [done|].
      rewrite sort_insert_perm. constructor; [by apply sort_ltb_le | done].
    + constructor; [by constructor|].
      constructor; [done|].
      eapply Forall_impl; [exact Hy|]. intros z Hz.
      by apply sort_le_trans with y.
Qed.

Lemma list_sort_sorted l : StronglySorted le (list_sort ltb key l).
Proof.
  induction l as [|x l IH]; simpl; [constructor|].
  by apply sort_insert_sorted.
Qed.
End ListSortFacts.

(** ** The rank tables and the order on sort keys *)

Lemma severity_order_rank f : severity_order f = severity_rank (severity f).
Proof.
  unfold severity_order, severity_rank, severity_table.
  destruct (decide (severity f = "ERROR")) as [->|H1]; [reflexivity|].
  destruct (decide (severity f = "WARNING")) as [->|H2]; [reflexivity|].
  destruct (decide (severity f = "INFO")) as [->|H3]; [reflexivity|].
  rewrite !lookup_insert_ne by done. by rewrite lookup_empty.
Qed.

Lemma confidence_order_rank f : confidence_order f = confidence_rank (confidence f).
Proof.
  unfold confidence_order, confidence_rank, confidence_table.
  destruct (decide (confidence f = "HIGH")) as [->|H1]; [reflexivity|].
  destruct (decide (confidence f = "MEDIUM")) as [->|H2]; [reflexivity|].
  destruct (decide (confidence f = "LOW")) as [->|H3]; [reflexivity|].
  rewrite !lookup_insert_ne by done. by rewrite lookup_empty.
Qed.

Lemma ascii_compare_refl a : Ascii.compare a a = Eq.
Proof. apply N.compare_refl. Qed.

Lemma string_compare_refl s : String.compare s s = Eq.
Proof. induction s as [|a s IH]; simpl; [done|]. by rewrite ascii_compare_refl. Qed.

Lemma ascii_compare_lt_trans a b c :
  Ascii.compare a b = Lt -> Ascii.compare b c = Lt -> Ascii.compare a c = Lt.
Proof. unfold Ascii.compare. rewrite !N.compare_lt_iff. lia. Qed.

Lemma string_compare_lt_trans s1 s2 s3 :
  String.compare s1 s2 = Lt -> String.compare s2 s3 = Lt -> String.compare s1 s3 = Lt.
Proof.
  revert s2 s3. induction s1 as [|a s1 IH]; intros [|b s2] [|c s3]; simpl; try done.
  destruct (Ascii.compare a b) eqn:Hab; try done;
    destruct (Ascii.compare b c) eqn:Hbc; try done; intros H1 H2.
  - apply Ascii.compare_eq_iff in Hab, Hbc. subst. rewrite ascii_compare_refl. eauto.
  - apply Ascii.compare_eq_iff in Hab. subst. by rewrite Hbc.
  - apply Ascii.compare_eq_iff in Hbc. subst. by rewrite Hab.
  - by rewrite (ascii_compare_lt_trans _ _ _ Hab Hbc).
Qed.

Lemma string_compare_total s1 s2 :
  String.compare s1 s2 = Lt \/ s1 = s2 \/ String.compare s2 s1 = Lt.
Proof.
  destruct (String.compare s1 s2) eqn:H; [|by left|].
  - right; left. by apply String.compare_eq_iff.
  - right; right. rewrite String.compare_antisym, H. done.
Qed.

Lemma string_compare_lt_irrefl s : String.compare s s ≠ Lt.
Proof. by rewrite string_compare_refl. Qed.

Lemma key_ltb_lt a b : key_ltb a b = true <-> key_lt a b.
Proof.
  destruct a as [[s1 p1] l1], b as [[s2 p2] l2]. unfold key_ltb, key_lt.
  destruct (Z.eqb_spec s1 s2) as [->|Hs]; simpl.
  - destruct (String.eqb_spec p1 p2) as [->|Hp]; simpl.
    + rewrite Z.ltb_lt. pose proof (string_compare_lt_irrefl p2). intuition lia.
    + unfold String.ltb. destruct (String.compare p1 p2) eqn:Hc; intuition (try done; try lia).
  - rewrite Z.ltb_lt. intuition lia.
Qed.

Lemma key_lt_irrefl a : ~ key_lt a a.
Proof.
  destruct a as [[s p] l]. unfold key_lt.
  pose proof (string_compare_lt_irrefl p). intuition lia.
Qed.

Lemma key_lt_trans a b c : key_lt a b -> key_lt b c -> key_lt a c.
Proof.
  destruct a as [[s1 p1] l1], b as [[s2 p2] l2], c as [[s3 p3] l3]. unfold key_lt.
  intros [?|[-> [H1|[-> ?]]]] [?|[-> [H2|[-> ?]]]]; try (left; lia); right; split; try done.
  - left. by eapply string_compare_lt_trans.
  - by left.
  - by left.
  - right. split; [done|lia].
Qed.

Lemma key_lt_total a b : key_lt a b \/ a = b \/ key_lt b a.
Proof.
  destruct a as [[s1 p1] l1], b as [[s2 p2] l2]. unfold key_lt.
  destruct (Z.lt_total s1 s2) as [?|[->|?]]; [tauto| |tauto].
  destruct (string_compare_total p1 p2) as [?|[->|?]]; [tauto| |tauto].
  destruct (Z.lt_total l1 l2) as [?|[->|?]]; tauto.
Qed.

Lemma key_ltb_irrefl k : key_ltb k k = false.
Proof.
  apply not_true_is_false. rewrite key_ltb_lt. apply key_lt_irrefl.
Qed.

Lemma key_ltb_trans a b c :
  key_ltb a b = true -> key_ltb b c = true -> key_ltb a c = true.
Proof. rewrite !key_ltb_lt. apply key_lt_trans. Qed.

Lemma key_ltb_total a b : key_ltb a b = false -> key_ltb b a = false -> a = b.
Proof.
  intros H1 H2. apply not_true_iff_false in H1, H2. rewrite key_ltb_lt in H1, H2.
  destruct (key_lt_total a b) as [?|[?|?]]; done.
Qed.

Lemma key_ltb_le a b : key_ltb b a = false <-> key_le a b.
Proof.
  rewrite <- not_true_iff_false, key_ltb_lt. unfold key_le.
  split.
  - intros H. destruct (key_lt_total a b) as [?|[?|?]]; tauto.
  - intros [H| ->] Hb; [|by apply key_lt_irrefl in Hb].
    eapply key_lt_irrefl, key_lt_trans; eauto.
Qed.

(** ** Parsing *)

(** Closes a goal [exists key, key ∈ required_keys /\ _ = Raise (KeyError key)]
    once the call has been evaluated. *)
Local Ltac raises_key :=
  eexists; split; [|reflexivity]; unfold required_keys; set_solver.

Lemma _parse_finding_required r :
  match required_fields r with
  | Some q => exists f, _parse_finding r = Return f /\ finding_required f = q
  | None =>
      exists key, key ∈ required_keys /\ _parse_finding r = Raise (KeyError key)
  end.
Proof.
  destruct r as [c p s e x]. unfold required_fields, _parse_finding. simpl.
  destruct c as [c|]; simpl; [|raises_key].
  destruct p as [p|]; simpl; [|raises_key].
  destruct s as [[[s|]]|]; simpl; [| raises_key | raises_key].
  destruct e as [[[e|]]|]; simpl; [| raises_key | raises_key].
  destruct x as [[[m|] ? ? ? ?]|]; simpl; [| raises_key | raises_key].
  eexists. split; reflexivity.
Qed.

Lemma _parse_finding_Return r f :
  _parse_finding r = Return f -> required_fields r = Some (finding_required f).
Proof.
  intros H. pose proof (_parse_finding_required r) as Hr.
  destruct (required_fields r) as [q|].
  - destruct Hr as (f' & Hf' & <-). congruence.
  - destruct Hr as (key & _ & Hkey). congruence.
Qed.

Lemma parse_loop_Return rs acc out :
  parse_loop rs acc = Return out ->
  exists fs, out = acc ++ fs /\ Forall2 (fun r f => _parse_finding r = Return f) rs fs.
Proof.
  revert acc. induction rs as [|r rs IH]; simpl; intros acc H.
  - exists []. split; [|constructor]. rewrite app_nil_r. by injection H.
  - destruct (_parse_finding r) as [f|e] eqn:Hf; simpl in H; [|done].
    destruct (IH _ H) as (fs & -> & Hfs).
    exists (f :: fs). split; [by rewrite <- app_assoc|]. by constructor.
Qed.

Lemma parse_loop_valid rs acc :
  Forall (fun r => is_Some (required_fields r)) rs ->
  exists fs, parse_loop rs acc = Return (acc ++ fs)
    /\ Forall2 (fun r f => _parse_finding r = Return f) rs fs.
Proof.
  intros H. revert acc. induction H as [|r rs [q Hq] _ IH]; simpl; intros acc.
  - exists []. by rewrite app_nil_r.
  - pose proof (_parse_finding_required r) as Hr. rewrite Hq in Hr.
    destruct Hr as (f & Hf & _). rewrite Hf. simpl.
    destruct (IH (acc ++ [f])) as (fs & Hfs & HF).
    exists (f :: fs). split; [by rewrite Hfs, <- app_assoc|]. by constructor.
Qed.

Lemma _parse_finding_Raise r key :
  _parse_finding r = Raise (KeyError key) -> key ∈ required_keys.
Proof.
  intros H. pose proof (_parse_finding_required r) as Hr.
  destruct (required_fields r) as [q|].
  - destruct Hr as (f & Hf & _). congruence.
  - destruct Hr as (key' & Hin & Hkey). congruence.
Qed.

Lemma parse_loop_missing rs acc :
  Exists (fun r => required_fields r = None) rs ->
  exists key, key ∈ required_keys /\ parse_loop rs acc = Raise (KeyError key).
Proof.
  intros H. revert acc. induction H as [r rs Hr|r rs _ IH]; simpl; intros acc.
  - pose proof (_parse_finding_required r) as Hp. rewrite Hr in Hp.
    destruct Hp as (key & Hin & ->). by exists key.
  - destruct (_parse_finding r) as [f|e] eqn:Hf; simpl; [apply IH|].
    pose proof (_parse_finding_required r) as Hr.
    destruct (required_fields r) as [q|].
    + destruct Hr as (f & Hf' & _). congruence.
    + destruct Hr as (key & Hin & Hkey). exists key. split; [done|congruence].
Qed.

Lemma parse_loop_app good rest acc parsed :
  Forall2 (fun r f => _parse_finding r = Return f) good parsed ->
  parse_loop (good ++ rest) acc = parse_loop rest (acc ++ parsed).
Proof.
  intros H. revert acc. induction H as [|r f good parsed Hf _ IH]; intros acc.
  - by rewrite app_nil_r.
  - simpl. rewrite Hf. simpl. by rewrite IH, <- app_assoc.
Qed.

Lemma _parse_semgrep_data_first_Raise data good bad rest e :
  dict_get (d_results data) [] = good ++ bad :: rest ->
  Forall (fun r => is_Some (required_fields r)) good ->
  _parse_finding bad = Raise e ->
  _parse_semgrep_data data = Raise e.
Proof.
  intros Hres Hgood Hbad.
  destruct (parse_loop_valid good [] Hgood) as (parsed & _ & Hparsed).
  unfold _parse_semgrep_data. simpl. rewrite Hres.
  rewrite (parse_loop_app _ _ _ _ Hparsed). simpl. by rewrite Hbad.
Qed.

Lemma _parse_finding_first_missing r :
  _parse_finding r
  = match first_missing_key r with
    | Some key => Raise (KeyError key)
    | None => _parse_finding r
    end
  /\ (first_missing_key r = None <-> is_Some (required_fields r)).
Proof.
  destruct r as [[c|] [p|] [[[s|]]|] [[[e|]]|] [[[m|] sev ln fp md]|]];
    cbn; (split; [reflexivity|]); split; intros H; try done;
    by destruct H.
Qed.

Lemma _parse_finding_Raise_iff r key :
  _parse_finding r = Raise (KeyError key) <-> first_missing_key r = Some key.
Proof.
  destruct (_parse_finding_first_missing r) as [Heq Hnone].
  destruct (first_missing_key r) as [key'|] eqn:Hk.
  - rewrite Heq. split; congruence.
  - split; [|done]. intros Hr.
    destruct (proj1 Hnone eq_refl) as [q Hq].
    pose proof (_parse_finding_required r) as Hp. rewrite Hq in Hp.
    destruct Hp as (f & Hf & _). congruence.
Qed.

Lemma first_offending_split (rs : list result_obj) :
  Exists (fun r => required_fields r = None) rs ->
  exists good bad rest,
    rs = good ++ bad :: rest
    /\ Forall (fun r => is_Some (required_fields r)) good
    /\ required_fields bad = None.
Proof.
  induction rs as [|r rs IH]; intros H; [by apply Exists_nil in H|].
  destruct (required_fields r) as [q|] eqn:Hr.
  - apply Exists_cons in H as [H|H]; [congruence|].
    destruct (IH H) as (good & bad & rest & -> & Hgood & Hbad).
    exists (r :: good), bad, rest. split; [done|]. split; [|done].
    constructor; [by eexists|done].
  - by exists [], r, rs.
Qed.

Lemma Forall2_required rs fs :
  Forall2 (fun r f => _parse_finding r = Return f) rs fs ->
  required_fields <$> rs = Some <$> (finding_required <$> fs).
Proof.
  induction 1 as [|r f rs fs Hf _ IH]; [done|].
  rewrite !fmap_cons. by rewrite (_parse_finding_Return _ _ Hf), IH.
Qed.

Lemma payload_required_finding f :
  payload_required (finding_dict f) = Some (finding_required f).
Proof. reflexivity. Qed.

(** ** Counters *)

Lemma occurrences_cons k x xs :
  occurrences k (x :: xs) = (if decide (x = k) then 1 else 0) + occurrences k xs.
Proof. unfold occurrences. rewrite filter_cons. by destruct (decide (x = k)). Qed.

Lemma fmap_fixed {A : Type} (f : A -> A) (l : list A) :
  Forall (fun a => f a = a) l -> f <$> l = l.
Proof. induction 1 as [|a l Ha _ IH]; [done|]. by rewrite fmap_cons, Ha, IH. Qed.

Lemma filter_all {A : Type} (P : A -> Prop) `{forall a, Decision (P a)} (l : list A) :
  Forall P l -> filter P l = l.
Proof.
  induction 1 as [|a l Ha _ IH]; [done|]. by rewrite filter_cons_True, IH.
Qed.

Lemma counter_add_fresh c x : x ∉ c.*1 -> counter_add c x = c ++ [(x, 1)].
Proof.
  induction c as [|[k n] c IH]; simpl; [done|].
  rewrite not_elem_of_cons. intros [Hne Hc].
  destruct (String.eqb_spec k x) as [->|_]; [done|]. by rewrite IH.
Qed.

Lemma counter_add_present c x :
  x ∈ c.*1 -> NoDup c.*1 ->
  counter_add c x = (fun kn => (kn.1, if decide (kn.1 = x) then S kn.2 else kn.2)) <$> c.
Proof.
  induction c as [|[k n] c IH]; [by rewrite elem_of_nil|].
  rewrite !fmap_cons, NoDup_cons. cbn [counter_add fst snd]. intros Hin [Hk Hnd].
  destruct (String.eqb_spec k x) as [->|Hne].
  - rewrite decide_True by done. f_equal.
    symmetry. apply fmap_fixed, Forall_forall. intros [k' n'] Hi. simpl.
    rewrite decide_False; [done|]. intros ->. apply Hk.
    apply list_elem_of_fmap. by exists (x, n').
  - rewrite decide_False by done. f_equal. apply IH; [|done].
    apply elem_of_cons in Hin as [?|?]; [by subst|done].
Qed.

Lemma foldl_counter_add c xs :
  NoDup c.*1 -> foldl counter_add c xs = counter_spec c xs.
Proof.
  revert c. induction xs as [|x xs IH]; intros c Hnd; simpl.
  - unfold counter_spec. simpl. rewrite app_nil_r.
    symmetry. apply fmap_fixed, Forall_forall.
    intros [k n] _. simpl. unfold occurrences. simpl. f_equal. lia.
  - destruct (decide (x ∈ c.*1)) as [Hin|Hout].
    + rewrite counter_add_present by done.
      set (incr := fun kn : string * nat =>
                     (kn.1, if decide (kn.1 = x) then S kn.2 else kn.2)).
      assert (Hkeys : (incr <$> c).*1 = c.*1).
      { rewrite <- list_fmap_compose. by apply list_fmap_ext. }
      rewrite IH by (by rewrite Hkeys).
      unfold counter_spec. rewrite Hkeys. f_equal.
      * rewrite <- list_fmap_compose. apply list_fmap_ext.
        intros i [k n] _. simpl. rewrite occurrences_cons.
        destruct (decide (k = x)) as [->|?].
        -- rewrite decide_True by done. f_equal; lia.
        -- rewrite decide_False by done. f_equal; lia.
      * simpl. rewrite filter_cons_False by (intros ?; done).
        rewrite list_filter_filter.
        rewrite (list_filter_iff (fun k => (k ∉ c.*1) /\ (k ≠ x)) (fun k => k ∉ c.*1));
          last first.
        { intros k. split; [tauto|]. intros Hk. split; [done|]. by intros ->. }
        apply Forall_fmap_ext, Forall_forall. intros k Hk.
        apply list_elem_of_filter in Hk as [Hk _].
        rewrite occurrences_cons, decide_False; [done|]. by intros ->.
    + rewrite counter_add_fresh by done. rewrite IH; last first.
      { rewrite fmap_app. simpl. apply NoDup_app. split; [done|].
        split; [|apply NoDup_singleton]. intros k Hk. rewrite list_elem_of_singleton. by intros ->. }
      unfold counter_spec. rewrite !fmap_app, <- app_assoc. simpl. f_equal.
      * apply Forall_fmap_ext, Forall_forall. intros [k n] Hk. simpl.
        rewrite occurrences_cons, decide_False; [done|]. intros ->.
        apply Hout, list_elem_of_fmap. by exists (k, n).
      * rewrite filter_cons_True by done. simpl.
        rewrite occurrences_cons, decide_True by done. f_equal.
        rewrite list_filter_filter.
        rewrite (list_filter_iff (fun k => (k ∉ c.*1) /\ (k ≠ x))
                   (fun k => k ∉ c.*1 ++ [x])); last first.
        { intros k. rewrite elem_of_app, list_elem_of_singleton. tauto. }
        apply Forall_fmap_ext, Forall_forall. intros k Hk.
        apply list_elem_of_filter in Hk as [Hk _].
        rewrite occurrences_cons, decide_False; [done|].
        intros ->. apply Hk. rewrite elem_of_app, list_elem_of_singleton. tauto.
Qed.

(** A [Counter] holds, in first-seen order, each distinct value with its
    number of occurrences. *)
Lemma Counter_breakdown xs : Counter xs = breakdown_of xs.
Proof.
  unfold Counter. rewrite foldl_counter_add by constructor.
  unfold counter_spec, breakdown_of. simpl. f_equal.
  apply filter_all, Forall_forall. intros k _. apply not_elem_of_nil.
Qed.

Lemma first_seen_elem k xs : k ∈ first_seen xs <-> k ∈ xs.
Proof.
  induction xs as [|x xs IH]; simpl; [done|].
  rewrite !elem_of_cons, list_elem_of_filter, IH.
  destruct (decide (k = x)); tauto.
Qed.

Lemma first_seen_NoDup xs : NoDup (first_seen xs).
Proof.
  induction xs as [|x xs IH]; simpl; constructor.
  - rewrite list_elem_of_filter. tauto.
  - by apply NoDup_filter.
Qed.

Lemma first_seen_length xs : length (first_seen xs) <= length xs.
Proof.
  induction xs as [|x xs IH]; simpl; [done|].
  pose proof (length_filter (fun y => y ≠ x) (first_seen xs)). lia.
Qed.

Lemma first_seen_length_eq xs : length (first_seen xs) = length xs <-> NoDup xs.
Proof.
  induction xs as [|x xs IH]; simpl.
  - split; [constructor|done].
  - pose proof (length_filter (fun y => y ≠ x) (first_seen xs)) as Hf.
    pose proof (first_seen_length xs) as Hl.
    rewrite NoDup_cons, <- IH. split.
    + intros Hlen. split; [|lia].
      intros Hx. apply first_seen_elem in Hx.
      assert (Hlt : length (filter (fun y => y ≠ x) (first_seen xs)) < length (first_seen xs));
        [|lia].
      apply list_elem_of_split in Hx as (l1 & l2 & ->).
      rewrite filter_app, filter_cons_False by (intros ?; done).
      rewrite !length_app. simpl.
      pose proof (length_filter (fun y => y ≠ x) l1).
      pose proof (length_filter (fun y => y ≠ x) l2). lia.
    + intros [Hx Hlen]. rewrite filter_all; [lia|].
      apply Forall_forall. intros k Hk ->. by apply Hx, first_seen_elem.
Qed.

Lemma size_list_to_set_first_seen xs :
  size (list_to_set xs : gset string) = length (first_seen xs).
Proof.
  rewrite <- (size_list_to_set (C := gset string) (first_seen xs))
    by apply first_seen_NoDup.
  f_equal. apply set_eq. intros k.
  by rewrite !elem_of_list_to_set, first_seen_elem.
Qed.

Lemma counter_add_sum c x :
  sum_list ((counter_add c x).*2) = S (sum_list (c.*2)).
Proof.
  induction c as [|[k n] c IH]; csimpl; [done|].
  destruct (String.eqb k x); csimpl; [done|]. rewrite IH. lia.
Qed.

Lemma foldl_counter_add_sum c xs :
  sum_list ((foldl counter_add c xs).*2) = sum_list (c.*2) + length xs.
Proof.
  revert c. induction xs as [|x xs IH]; intros c; simpl; [lia|].
  rewrite IH, counter_add_sum. lia.
Qed.

Lemma Counter_sum xs : sum_list ((Counter xs).*2) = length xs.
Proof. unfold Counter. by rewrite foldl_counter_add_sum. Qed.

Lemma breakdown_of_keys xs : (breakdown_of xs).*1 = first_seen xs.
Proof.
  unfold breakdown_of. rewrite <- list_fmap_compose.
  apply fmap_fixed, Forall_forall. done.
Qed.

Lemma elem_of_breakdown_of k n xs :
  (k, n) ∈ breakdown_of xs <-> k ∈ xs /\ n = occurrences k xs.
Proof.
  unfold breakdown_of. rewrite list_elem_of_fmap. split.
  - intros (k' & [= -> ->] & Hk). by rewrite <- first_seen_elem.
  - intros [Hk ->]. exists k. by rewrite first_seen_elem.
Qed.

Lemma occurrences_pos k xs : k ∈ xs -> 0 < occurrences k xs.
Proof.
  intros Hk. unfold occurrences.
  apply list_elem_of_split in Hk as (l1 & l2 & ->).
  rewrite filter_app, filter_cons_True, length_app by done. simpl. lia.
Qed.

(** ** [most_common] *)

Lemma gtb_irrefl k : Nat.ltb k k = false.
Proof. apply Nat.ltb_irrefl. Qed.

Lemma gtb_trans (a b c : nat) :
  Nat.ltb b a = true -> Nat.ltb c b = true -> Nat.ltb c a = true.
Proof. rewrite !Nat.ltb_lt. lia. Qed.

Lemma gtb_total (a b : nat) : Nat.ltb b a = false -> Nat.ltb a b = false -> a = b.
Proof. rewrite !Nat.ltb_ge. lia. Qed.

Lemma StronglySorted_weaken {A : Type} (R S : A -> A -> Prop) (l : list A) :
  (forall a b, R a b -> S a b) -> StronglySorted R l -> StronglySorted S l.
Proof.
  intros HRS. induction 1 as [|a l _ IH Ha]; constructor; [done|].
  eapply Forall_impl; [exact Ha|]. intros b. apply HRS.
Qed.

Lemma sort_desc_sorted c :
  StronglySorted count_ge (list_sort (fun a b => Nat.ltb b a) snd c).
Proof.
  eapply StronglySorted_weaken;
    [|apply (list_sort_sorted (fun a b => Nat.ltb b a) snd gtb_irrefl gtb_trans gtb_total)].
  intros a b. simpl. unfold count_ge. rewrite Nat.ltb_ge. done.
Qed.

Lemma most_common_length n c : length (most_common n c) = n `min` length c.
Proof. unfold most_common. by rewrite length_take, list_sort_length. Qed.

Lemma most_common_sorted n c : StronglySorted count_ge (most_common n c).
Proof.
  unfold most_common. eapply StronglySorted_app_1_l.
  rewrite take_drop. apply sort_desc_sorted.
Qed.

Lemma most_common_perm n c :
  most_common n c ++ drop n (list_sort (fun a b => Nat.ltb b a) snd c) ≡ₚ c.
Proof. unfold most_common. by rewrite take_drop, list_sort_perm. Qed.

Lemma most_common_elem n c kn : kn ∈ most_common n c -> kn ∈ c.
Proof.
  intros H. rewrite <- (most_common_perm n c). apply elem_of_app. by left.
Qed.

Lemma most_common_NoDup n c : NoDup c.*1 -> NoDup (most_common n c).*1.
Proof.
  intros H. rewrite <- (most_common_perm n c), fmap_app in H.
  by apply NoDup_app in H as [? _].
Qed.

(** Entries left out are not more frequent than entries taken. *)
Lemma most_common_excluded n c kn kn' :
  NoDup c.*1 -> kn ∈ most_common n c -> kn' ∈ c -> kn'.1 ∉ (most_common n c).*1 ->
  kn'.2 <= kn.2.
Proof.
  intros Hnd Hin Hc Hout.
  pose proof (sort_desc_sorted c) as Hs.
  rewrite <- (take_drop n) in Hs.
  eapply (StronglySorted_app_1_elem_of _ _ _ kn kn') in Hs; [done|done|].
  rewrite <- (most_common_perm n c) in Hc.
  apply elem_of_app in Hc as [Hc|Hc]; [|done].
  destruct Hout. apply list_elem_of_fmap. by exists kn'.
Qed.

(** Among entries of one count, the ones taken are the first of the
    counter, in the counter's order. *)
Lemma most_common_ties n m c :
  filter (fun kn => kn.2 = m) (most_common n c)
  `prefix_of` filter (fun kn => kn.2 = m) c.
Proof.
  rewrite <- (list_sort_stable (fun a b => Nat.ltb b a) snd gtb_irrefl m c).
  unfold most_common.
  rewrite <- (take_drop n (list_sort _ _ c)) at 2.
  rewrite filter_app. by eexists.
Qed.

Lemma breakdown_of_filter m xs :
  (filter (fun kn => kn.2 = m) (breakdown_of xs)).*1
  = filter (fun k => occurrences k xs = m) (first_seen xs).
Proof.
  unfold breakdown_of. induction (first_seen xs) as [|k l IH]; [done|].
  rewrite fmap_cons, !filter_cons. simpl.
  destruct (decide (occurrences k xs = m)); csimpl; by rewrite IH.
Qed.

Lemma summary_stats_unfold (self : SemgrepReport) :
  summary_stats self =
    {| total_findings := length (findings self);
       total_errors := length (errors self);
       files_scanned := total_files_scanned self;
       files_affected := size (list_to_set (path <$> findings self) : gset string);
       severity_breakdown := Counter (severity <$> findings self);
       confidence_breakdown := Counter (confidence <$> findings self);
       category_breakdown := Counter (category <$> findings self);
       top_issues := most_common 5 (Counter (check_id <$> findings self)) |}.
Proof. reflexivity. Qed.

(** ** The sort of the findings *)

Lemma finding_key_composite f : finding_key f = composite_key f.
Proof. unfold finding_key, composite_key. by rewrite severity_order_rank. Qed.

Lemma sort_findings_perm fs : list_sort key_ltb finding_key fs ≡ₚ fs.
Proof. apply list_sort_perm. Qed.

Lemma sort_findings_ascending fs : ascending (list_sort key_ltb finding_key fs).
Proof.
  eapply StronglySorted_weaken;
    [|apply (list_sort_sorted key_ltb finding_key
               key_ltb_irrefl key_ltb_trans key_ltb_total)].
  intros f g H. apply key_ltb_le in H. by rewrite <- !finding_key_composite.
Qed.

Lemma sort_findings_stable k fs :
  filter (fun f => composite_key f = k) (list_sort key_ltb finding_key fs)
  = filter (fun f => composite_key f = k) fs.
Proof.
  rewrite <- !(list_filter_iff (fun f => finding_key f = k)
                  (fun f => composite_key f = k))
    by (intros f; by rewrite finding_key_composite).
  apply (list_sort_stable key_ltb finding_key key_ltb_irrefl).
Qed.

Lemma _parse_semgrep_data_Return data report :
  _parse_semgrep_data data = Return report ->
  exists parsed,
    Forall2 (fun r f => _parse_finding r = Return f) (dict_get (d_results data) []) parsed
    /\ report =
         {| version := dict_get (d_version data) "unknown";
            findings := list_sort key_ltb finding_key parsed;
            errors := dict_get (d_errors data) [];
            scanned_paths := dict_get (scanned (dict_get (d_paths data) empty_paths)) [];
            total_files_scanned :=
              length (dict_get (scanned (dict_get (d_paths data) empty_paths)) []);
            scan_time := Some (dict_get (d_time data) (JObj [])) |}.
Proof.
  unfold _parse_semgrep_data. simpl.
  destruct (parse_loop _ _) as [out|e] eqn:Hloop; simpl; [|done].
  intros [= <-]. apply parse_loop_Return in Hloop as (parsed & -> & Hparsed).
  by exists parsed.
Qed.

Lemma three_sorted f1 f2 f3 :
  severity f1 = "INFO" -> severity f2 = "ERROR" -> severity f3 = "WARNING" ->
  list_sort key_ltb finding_key [f1; f2; f3] = [f2; f3; f1].
Proof.
  destruct f1, f2, f3. simpl. intros -> -> ->. reflexivity.
Qed.

(** C1: after the findings are parsed from the results sequence, the list
    is sorted ascending by the composite key (severity_rank, path,
    start_line), with ERROR 0, WARNING 1, INFO 2 and anything else 3; the
    sort is stable (the findings of any one key keep their order from the
    results array); three results of severities INFO, ERROR, WARNING come
    out as ERROR, WARNING, INFO. *)
Theorem findings_sorted_by_composite_key data report :
  _parse_semgrep_data data = Return report ->
  exists parsed,
    Forall2 (fun r f => _parse_finding r = Return f) (dict_get (d_results data) []) parsed
    /\ findings report ≡ₚ parsed
    /\ ascending (findings report)
    /\ (forall k, filter (fun f => composite_key f = k) (findings report)
                  = filter (fun f => composite_key f = k) parsed)
    /\ (forall f1 f2 f3, parsed = [f1; f2; f3] ->
          severity f1 = "INFO" -> severity f2 = "ERROR" -> severity f3 = "WARNING" ->
          findings report = [f2; f3; f1]).
Proof.
  intros H. apply _parse_semgrep_data_Return in H as (parsed & Hparsed & ->).
  exists parsed. simpl.
  split; [done|]. split; [apply sort_findings_perm|].
  split; [apply sort_findings_ascending|].
  split; [intros k; apply sort_findings_stable|].
  intros f1 f2 f3 -> H1 H2 H3. by apply three_sorted.
Qed.

Lemma findings_sorted_by_composite_key_witness :
  exists report,
    _parse_semgrep_data three_severities = Return report
    /\ severity <$> findings report = ["ERROR"; "WARNING"; "INFO"]
    /\ ascending (findings report).
Proof.
  eexists. split; [reflexivity|]. split; [reflexivity|].
  destruct (findings_sorted_by_composite_key three_severities _ eq_refl)
    as (parsed & _ & _ & Hasc & _).
  exact Hasc.
Defined.


(** ** Missing required fields *)

(** C2, amended: when some record of the results sequence misses a required
    field, normalization raises a [KeyError] naming the first missing key
    of the first such record; no report is returned, and
    [generate_report] raises the same error and leaves the file system as
    it was, whatever the operating system would do with the output
    file. *)
Theorem missing_required_field_aborts data output_file os (fs : file_system) :
  Exists (fun r => required_fields r = None) (dict_get (d_results data) []) ->
  exists good bad rest key,
    dict_get (d_results data) [] = good ++ bad :: rest
    /\ Forall (fun r => is_Some (required_fields r)) good
    /\ required_fields bad = None
    /\ first_missing_key bad = Some key
    /\ key ∈ required_keys
    /\ _parse_semgrep_data data = Raise (KeyError key)
    /\ generate_report (Holds data) output_file os fs = (Raise (KeyError key), fs).
Proof.
  intros H. apply first_offending_split in H as (good & bad & rest & Hres & Hgood & Hbad).
  pose proof (_parse_finding_required bad) as Hp. rewrite Hbad in Hp.
  destruct Hp as (key & Hkey & Hraise).
  exists good, bad, rest, key. split; [done|]. split; [done|]. split; [done|].
  split; [by apply _parse_finding_Raise_iff|]. split; [done|].
  assert (Hparse : _parse_semgrep_data data = Raise (KeyError key))
    by (by eapply _parse_semgrep_data_first_Raise).
  split; [done|]. unfold generate_report. by rewrite Hparse.
Qed.

Lemma missing_required_field_aborts_witness :
  exists good bad rest key,
    dict_get (d_results missing_at_1) [] = good ++ bad :: rest
    /\ Forall (fun r => is_Some (required_fields r)) good
    /\ required_fields bad = None
    /\ first_missing_key bad = Some key
    /\ key ∈ required_keys
    /\ _parse_semgrep_data missing_at_1 = Raise (KeyError key)
    /\ generate_report (Holds missing_at_1) "report.html" obliging_os ∅
       = (Raise (KeyError key), ∅).
Proof.
  apply missing_required_field_aborts.
  apply Exists_cons_tl, Exists_cons_hd. reflexivity.
Defined.

(** C2 as stated fails: the error raised for a missing field does not
    identify the position of the offending record.  The same [KeyError] is
    raised whether the record is first or second in the results. *)
Lemma missing_field_error_has_no_position :
  ~ (exists position_of : exn -> nat,
       forall data i, offending_positions data = [i] ->
         exists e, _parse_semgrep_data data = Raise e /\ position_of e = i).
Proof.
  intros (position_of & H).
  destruct (H missing_at_0 0 eq_refl) as (e0 & H0 & P0).
  destruct (H missing_at_1 1 eq_refl) as (e1 & H1 & P1).
  vm_compute in H0, H1. congruence.
Qed.

(** ** Valid documents *)

(** C3: for a document all of whose result records have the required
    fields, the report has as many findings as the results sequence has
    elements, and the required fields (check_id, path, start_line,
    end_line, message) read back from the findings payload are those of the
    input records, record for record. *)
Theorem valid_results_round_trip data :
  Forall (fun r => is_Some (required_fields r)) (dict_get (d_results data) []) ->
  exists report items,
    _parse_semgrep_data data = Return report
    /\ length (findings report) = length (dict_get (d_results data) [])
    /\ findings_json (_generate_html report) = JArr items
    /\ length items = length (findings report)
    /\ payload_required <$> items ≡ₚ required_fields <$> dict_get (d_results data) [].
Proof.
  intros H. apply (parse_loop_valid _ []) in H as (parsed & Hloop & Hparsed).
  unfold _parse_semgrep_data. simpl in *. rewrite Hloop. simpl.
  eexists _, _. split; [reflexivity|]. simpl.
  split. { rewrite list_sort_length. symmetry. by eapply Forall2_length. }
  split; [reflexivity|].
  split; [by rewrite length_fmap|].
  rewrite (Forall2_required _ _ Hparsed), <- list_fmap_compose.
  rewrite (list_fmap_ext _ (Some ∘ finding_required) (list_sort _ _ parsed))
    by (intros; apply payload_required_finding).
  rewrite list_fmap_compose. by rewrite sort_findings_perm.
Qed.

Lemma valid_results_round_trip_witness :
  exists report items,
    _parse_semgrep_data three_severities = Return report
    /\ length (findings report) = 3
    /\ findings_json (_generate_html report) = JArr items
    /\ length items = length (findings report)
    /\ payload_required <$> items
       ≡ₚ [ Some ("rule.a", "app.py", 7%Z, 7%Z, "first");
            Some ("rule.b", "app.py", 7%Z, 7%Z, "second");
            Some ("rule.c", "app.py", 7%Z, 7%Z, "third") ].
Proof.
  apply (valid_results_round_trip three_severities).
  repeat constructor; by eexists.
Defined.

(** ** Defaults *)

(** C7: a result record whose [extra.metadata] is absent is parsed as with
    an empty mapping: parsing fails only when a required field is missing,
    and the finding produced has confidence "UNKNOWN", category "unknown",
    empty technology, cwe, owasp and references, and no shortlink; an
    absent [extra.severity] gives "UNKNOWN", absent [extra.lines] and
    [extra.fingerprint] give [None]. *)
Theorem absent_optional_fields_default r :
  match _parse_finding r with
  | Return f =>
      (r_extra r ≫= ex_metadata = None ->
         confidence f = "UNKNOWN" /\ category f = "unknown"
         /\ technology f = [] /\ cwe f = [] /\ owasp f = [] /\ references f = []
         /\ shortlink f = None)
      /\ severity f = default "UNKNOWN" (r_extra r ≫= ex_severity)
      /\ lines f = r_extra r ≫= ex_lines
      /\ fingerprint f = r_extra r ≫= ex_fingerprint
  | Raise e => required_fields r = None
  end.
Proof.
  destruct r as [[c|] [p|] [[[s|]]|] [[[e|]]|] [[[m|] sev ln fp md]|]]; try done.
  simpl. split; [by intros ->|]. by destruct sev.
Qed.

(** ** Ranks *)

Lemma sort_insert_fmap {A K : Type} (ltb : K -> K -> bool) (key : A -> K)
    (h : A -> A) x l :
  (forall a, key (h a) = key a) ->
  sort_insert ltb key (h x) (h <$> l) = h <$> sort_insert ltb key x l.
Proof.
  intros Hkey. induction l as [|y l IH]; [done|].
  rewrite fmap_cons. cbn [sort_insert]. rewrite !Hkey, IH.
  by destruct (ltb (key y) (key x)).
Qed.

Lemma list_sort_fmap {A K : Type} (ltb : K -> K -> bool) (key : A -> K)
    (h : A -> A) l :
  (forall a, key (h a) = key a) ->
  list_sort ltb key (h <$> l) = h <$> list_sort ltb key l.
Proof.
  intros Hkey. induction l as [|x l IH]; [done|].
  rewrite fmap_cons. cbn [list_sort]. by rewrite IH, sort_insert_fmap.
Qed.

(** C8: the severity rank is ERROR 0 < WARNING 1 < INFO 2 < UNKNOWN 3, any
    other string ranks 3 as well; the confidence rank (HIGH 0, MEDIUM 1,
    LOW 2, else 3) is defined on every finding, and the sort of the
    findings does not depend on it: replacing confidences commutes with
    the sort. *)
Theorem rank_functions :
  (forall f, severity_order f = severity_rank (severity f))
  /\ severity_rank "ERROR" = 0%Z /\ severity_rank "WARNING" = 1%Z
  /\ severity_rank "INFO" = 2%Z /\ severity_rank "UNKNOWN" = 3%Z
  /\ (forall s, s ∈ ["ERROR"; "WARNING"; "INFO"] \/ severity_rank s = 3%Z)
  /\ (forall f, confidence_order f = confidence_rank (confidence f))
  /\ confidence_rank "HIGH" = 0%Z /\ confidence_rank "MEDIUM" = 1%Z
  /\ confidence_rank "LOW" = 2%Z
  /\ (forall s, s ∈ ["HIGH"; "MEDIUM"; "LOW"] \/ confidence_rank s = 3%Z)
  /\ (forall g fs,
        list_sort key_ltb finding_key (map_confidence g <$> fs)
        = map_confidence g <$> list_sort key_ltb finding_key fs).
Proof.
  split; [apply severity_order_rank|]. do 4 (split; [reflexivity|]).
  split.
  { intros s. unfold severity_rank. repeat case_decide; set_solver. }
  split; [apply confidence_order_rank|]. do 3 (split; [reflexivity|]).
  split.
  { intros s. unfold confidence_rank. repeat case_decide; set_solver. }
  intros g fs. by apply list_sort_fmap.
Qed.

(** ** The report header *)

(** C9: the report built from a document has the document's version or
    "unknown", its errors sequence as it is (default empty), serialized in
    the same order, scanned_paths from paths.scanned (default empty), and
    total_files_scanned equal to the length of scanned_paths. *)
Theorem report_header_fields data report :
  _parse_semgrep_data data = Return report ->
  version report = dict_get (d_version data) "unknown"
  /\ errors report = dict_get (d_errors data) []
  /\ errors_json (_generate_html report) = JArr (dict_get (d_errors data) [])
  /\ scanned_paths report = dict_get (d_paths data ≫= scanned) []
  /\ total_files_scanned report = length (scanned_paths report).
Proof.
  intros H. apply _parse_semgrep_data_Return in H as (parsed & _ & ->). simpl.
  repeat split. by destruct (d_paths data).
Qed.

Lemma report_header_fields_witness :
  exists report,
    _parse_semgrep_data full_document = Return report
    /\ version report = "1.45.0"
    /\ errors_json (_generate_html report)
       = JArr [ JObj [("type", JStr "Syntax"); ("path", JStr "b.py")];
                JObj [("message", JStr "timeout")] ]
    /\ scanned_paths report = ["a.py"; "b.py"; "c.py"]
    /\ total_files_scanned report = 3.
Proof.
  eexists. split; [reflexivity|].
  destruct (report_header_fields full_document _ eq_refl)
    as (Hv & _ & He & Hs & Ht).
  split; [exact Hv|]. split; [exact He|]. split; [exact Hs | exact Ht].
Defined.

(** ** Summary statistics *)

(** C10: computing the summary statistics leaves the report as it was:
    findings, errors, scanned_paths, total_files_scanned, version and
    scan_time are unchanged. *)
Theorem summary_stats_frame self :
  let self' := (call summary_stats_method self).2 in
  self' = self
  /\ findings self' = findings self
  /\ errors self' = errors self
  /\ scanned_paths self' = scanned_paths self
  /\ total_files_scanned self' = total_files_scanned self
  /\ version self' = version self
  /\ scan_time self' = scan_time self.
Proof. repeat split. Qed.

(** C4: each of severity_breakdown, confidence_breakdown and
    category_breakdown maps every distinct value of its field to the number
    of findings that have it, each finding counted once; the keys are in
    first-seen order; the values of severity_breakdown add up to the number
    of findings. *)
Theorem breakdowns_count_first_seen (report : SemgrepReport) :
  let s := summary_stats report in
  severity_breakdown s = breakdown_of (severity <$> findings report)
  /\ confidence_breakdown s = breakdown_of (confidence <$> findings report)
  /\ category_breakdown s = breakdown_of (category <$> findings report)
  /\ (severity_breakdown s).*1 = first_seen (severity <$> findings report)
  /\ (confidence_breakdown s).*1 = first_seen (confidence <$> findings report)
  /\ (category_breakdown s).*1 = first_seen (category <$> findings report)
  /\ sum_list ((severity_breakdown s).*2) = length (findings report).
Proof.
  rewrite summary_stats_unfold. simpl.
  rewrite <- !breakdown_of_keys, <- !Counter_breakdown.
  repeat split. by rewrite Counter_sum, length_fmap.
Qed.

(** C6: files_affected is the number of distinct paths among the findings;
    it is at most the number of findings, and equal to it exactly when the
    paths of the findings are pairwise distinct. *)
Theorem files_affected_distinct_paths (report : SemgrepReport) :
  let s := summary_stats report in
  let paths := path <$> findings report in
  NoDup (first_seen paths)
  /\ (forall p, p ∈ first_seen paths <-> p ∈ paths)
  /\ files_affected s = length (first_seen paths)
  /\ files_affected s <= length (findings report)
  /\ (files_affected s = length (findings report) <-> NoDup paths).
Proof.
  rewrite summary_stats_unfold. simpl.
  rewrite size_list_to_set_first_seen.
  split; [apply first_seen_NoDup|]. split; [intros p; apply first_seen_elem|].
  split; [done|].
  rewrite <- (length_fmap path (findings report)).
  split; [apply first_seen_length | apply first_seen_length_eq].
Qed.

(** C5: top_issues has at most 5 entries, the most frequent check_ids each
    with its number of occurrences, in descending order of count; among
    check_ids of equal count the first seen come first; no check_id left
    out occurs more often than one that is included. *)
Theorem top_issues_most_frequent (report : SemgrepReport) :
  let top := top_issues (summary_stats report) in
  let ids := check_id <$> findings report in
  length top <= 5
  /\ length top = 5 `min` length (first_seen ids)
  /\ NoDup top.*1
  /\ (forall k n, (k, n) ∈ top -> k ∈ ids /\ n = occurrences k ids)
  /\ StronglySorted count_ge top
  /\ (forall n, (filter (fun kn => kn.2 = n) top).*1
                `prefix_of` filter (fun k => occurrences k ids = n) (first_seen ids))
  /\ (forall k n k', (k, n) ∈ top -> k' ∈ ids -> k' ∉ top.*1 ->
        occurrences k' ids <= n).
Proof.
  rewrite summary_stats_unfold. simpl.
  set (ids := check_id <$> findings report).
  assert (Hnd : NoDup (Counter ids).*1).
  { rewrite Counter_breakdown, breakdown_of_keys. apply first_seen_NoDup. }
  assert (Hlen : length (most_common 5 (Counter ids)) = 5 `min` length (first_seen ids)).
  { by rewrite most_common_length, Counter_breakdown, <- breakdown_of_keys, length_fmap. }
  split; [lia|]. split; [done|].
  split; [by apply most_common_NoDup|].
  split.
  { intros k n Hin%most_common_elem.
    by rewrite Counter_breakdown, elem_of_breakdown_of in Hin. }
  split; [apply most_common_sorted|].
  split.
  { intros n. rewrite <- breakdown_of_filter, <- Counter_breakdown.
    destruct (most_common_ties 5 n (Counter ids)) as [rest ->].
    rewrite fmap_app. by eexists. }
  intros k n k' Hin Hk' Hout.
  apply (most_common_excluded 5 (Counter ids) (k, n) (k', occurrences k' ids));
    [done|done| |done].
  by rewrite Counter_breakdown, elem_of_breakdown_of.
Qed.

(** ** Worked examples *)

Example Counter_keeps_first_seen_order :
  Counter ["web"; "auth"; "web"; "crypto"; "auth"; "web"]
  = [("web", 3); ("auth", 2); ("crypto", 1)].
Proof. reflexivity. Qed.

Example most_common_ties_in_first_seen_order :
  most_common 2 (Counter ["z.rule"; "b.rule"; "b.rule"; "a.rule"; "a.rule"])
  = [("b.rule", 2); ("a.rule", 2)].
Proof. reflexivity. Qed.

Example three_severities_sorted :
  exists report,
    _parse_semgrep_data three_severities = Return report
    /\ check_id <$> findings report = ["rule.b"; "rule.c"; "rule.a"].
Proof. eexists. split; reflexivity. Qed.

Example equal_keys_keep_input_order :
  exists report,
    _parse_semgrep_data
      (doc_of [ result_of (Some "INFO") "rule.x" "a.py" 4 (Some "m");
                result_of (Some "ERROR") "rule.y" "b.py" 9 (Some "m");
                result_of (Some "INFO") "rule.z" "a.py" 4 (Some "m");
                result_of (Some "ERROR") "rule.w" "b.py" 9 (Some "m") ])
    = Return report
    /\ check_id <$> findings report = ["rule.y"; "rule.w"; "rule.x"; "rule.z"].
Proof. eexists. split; reflexivity. Qed.

Example result_without_metadata :
  exists f,
    _parse_finding (result_of None "rule.a" "a.py" 3 (Some "text")) = Return f
    /\ confidence f = "UNKNOWN" /\ category f = "unknown"
    /\ technology f = [] /\ cwe f = [] /\ owasp f = [] /\ references f = []
    /\ shortlink f = None /\ severity f = "UNKNOWN"
    /\ lines f = None /\ fingerprint f = None.
Proof. eexists. repeat split; reflexivity. Qed.

Example second_record_without_message :
  _parse_semgrep_data missing_at_1 = Raise (KeyError "message")
  /\ offending_positions missing_at_1 = [1].
Proof. split; reflexivity. Qed.

Example empty_results :
  exists report,
    _parse_semgrep_data (doc_of []) = Return report
    /\ findings report = []
    /\ severity_breakdown (summary_stats report) = []
    /\ confidence_breakdown (summary_stats report) = []
    /\ category_breakdown (summary_stats report) = []
    /\ top_issues (summary_stats report) = []
    /\ files_affected (summary_stats report) = 0.
Proof. eexists. repeat split; reflexivity. Qed.

(** ** More on the stable sort: its result is canonical *)

Section ListSortCanonical.
Context {A K : Type} `{EqDecision K} (ltb : K -> K -> bool) (key : A -> K).
Hypothesis ltb_irrefl : forall k, ltb k k = false.
Hypothesis ltb_trans :
  forall a b c, ltb a b = true -> ltb b c = true -> ltb a c = true.
Hypothesis ltb_total :
  forall a b, ltb a b = false -> ltb b a = false -> a = b.

Let le (x y : A) : Prop := ltb (key y) (key x) = false.

Lemma class_head_elem x l1 y l2 :
  filter (fun a => key a = key y) (x :: l1) = filter (fun a => key a = key y) (y :: l2) ->
  y ∈ x :: l1.
Proof.
  rewrite (filter_cons_True _ y) by done. intros Hf.
  assert (Hin : y ∈ filter (fun a => key a = key y) (x :: l1))
    by (rewrite Hf; apply list_elem_of_here).
  by apply list_elem_of_filter in Hin as [_ ?].
Qed.

Lemma sorted_head_le x l y :
  StronglySorted le (x :: l) -> y ∈ x :: l -> le x y.
Proof.
  intros [_ Hx]%StronglySorted_inv [->|Hy]%elem_of_cons.
  - apply ltb_irrefl.
  - by eapply Forall_forall in Hx.
Qed.

(** Two sorted lists with the same elements of each key, in the same
    order, are equal. *)
Lemma sorted_classes_eq l1 l2 :
  StronglySorted le l1 -> StronglySorted le l2 ->
  (forall k, filter (fun a => key a = k) l1 = filter (fun a => key a = k) l2) ->
  l1 = l2.
Proof.
  revert l2. induction l1 as [|x l1 IH]; intros [|y l2] H1 H2 Hf.
  - done.
  - specialize (Hf (key y)). by rewrite filter_cons_True in Hf.
  - specialize (Hf (key x)). by rewrite filter_cons_True in Hf.
  - assert (Hkey : key x = key y).
    { apply ltb_total.
      - apply (sorted_head_le y l2 x H2). eapply class_head_elem. symmetry. apply Hf.
      - apply (sorted_head_le x l1 y H1). eapply class_head_elem. apply Hf. }
    pose proof (Hf (key x)) as Hx.
    rewrite (filter_cons_True _ x), (filter_cons_True _ y) in Hx by done.
    injection Hx as -> Hx. f_equal.
    apply StronglySorted_inv in H1 as [H1 _], H2 as [H2 _].
    apply IH; [done|done|]. intros k. specialize (Hf k).
    rewrite !filter_cons in Hf. destruct (decide (key y = k)); congruence.
Qed.

Lemma list_sort_sorted_id l :
  StronglySorted le l -> list_sort ltb key l = l.
Proof.
  intros Hl. apply sorted_classes_eq; [|done|].
  - by apply list_sort_sorted.
  - intros k. by apply list_sort_stable.
Qed.

Lemma list_sort_idempotent l :
  list_sort ltb key (list_sort ltb key l) = list_sort ltb key l.
Proof. apply list_sort_sorted_id. by apply list_sort_sorted. Qed.

Lemma list_sort_canonical l1 l2 :
  (forall k, filter (fun a => key a = k) l1 = filter (fun a => key a = k) l2) ->
  list_sort ltb key l1 = list_sort ltb key l2.
Proof.
  intros Hf. apply sorted_classes_eq; try by apply list_sort_sorted.
  intros k. by rewrite !list_sort_stable.
Qed.

Lemma distinct_keys_class k l :
  NoDup (key <$> l) -> length (filter (fun a => key a = k) l) <= 1.
Proof.
  induction l as [|x l IH]; [simpl; lia|].
  rewrite fmap_cons, NoDup_cons, filter_cons. intros [Hx Hl].
  destruct (decide (key x = k)) as [<-|]; [|by apply IH].
  destruct (filter (fun a => key a = key x) l) as [|y rest] eqn:Hf; [simpl; lia|].
  destruct Hx. assert (Hy : y ∈ filter (fun a => key a = key x) l)
    by (rewrite Hf; apply list_elem_of_here).
  apply list_elem_of_filter in Hy as [<- Hy]. by apply list_elem_of_fmap_2.
Qed.

(** With pairwise distinct keys the order of the input does not matter. *)
Lemma list_sort_perm_distinct l1 l2 :
  l1 ≡ₚ l2 -> NoDup (key <$> l1) ->
  list_sort ltb key l1 = list_sort ltb key l2.
Proof.
  intros Hp Hnd. apply list_sort_canonical. intros k.
  pose proof (distinct_keys_class k l1 Hnd) as Hlen1.
  assert (Hlen2 : length (filter (fun a => key a = k) l2) <= 1).
  { apply distinct_keys_class. by rewrite <- Hp. }
  assert (Hpf : filter (fun a => key a = k) l1 ≡ₚ filter (fun a => key a = k) l2)
    by (by rewrite Hp).
  destruct (filter _ l1) as [|a [|? ?]], (filter _ l2) as [|b [|? ?]];
    simpl in *; try lia; try done.
  - by apply Permutation_nil_cons in Hpf.
  - symmetry in Hpf. by apply Permutation_nil_cons in Hpf.
  - by apply Permutation_singleton_inj in Hpf as ->.
Qed.
End ListSortCanonical.

(** * Further properties of the code *)


(** ** Parsing, further *)

(** X1: [_parse_finding] returns a finding exactly when the record has its
    five required fields. *)
Theorem parse_finding_succeeds_iff r :
  (exists f, _parse_finding r = Return f) <-> is_Some (required_fields r).
Proof.
  pose proof (_parse_finding_required r) as Hr. split.
  - intros [f Hf]. rewrite (_parse_finding_Return _ _ Hf). by eexists.
  - intros [q Hq]. rewrite Hq in Hr. destruct Hr as (f & Hf & _). by exists f.
Qed.

(** X2: the [KeyError] of [_parse_finding] names the first missing key in
    the order the fields are read, check_id, path, start, line (of start),
    end, line (of end), message: each key is named exactly when everything
    read before it is there and it is not; nothing but a [KeyError] is
    raised. *)
Theorem parse_finding_first_missing_key r :
  (forall key, _parse_finding r = Raise (KeyError key) <-> first_missing_key r = Some key)
  /\ (forall e, _parse_finding r = Raise e -> exists key, e = KeyError key)
  /\ (_parse_finding r = Raise (KeyError "check_id") <-> r_check_id r = None)
  /\ (_parse_finding r = Raise (KeyError "path")
      <-> is_Some (r_check_id r) /\ r_path r = None)
  /\ (_parse_finding r = Raise (KeyError "start")
      <-> is_Some (r_check_id r) /\ is_Some (r_path r) /\ r_start r = None)
  /\ (_parse_finding r = Raise (KeyError "line")
      <-> is_Some (r_check_id r) /\ is_Some (r_path r)
          /\ (r_start r = Some {| line := None |}
              \/ (is_Some (r_start r ≫= line) /\ r_end r = Some {| line := None |})))
  /\ (_parse_finding r = Raise (KeyError "end")
      <-> is_Some (r_check_id r) /\ is_Some (r_path r)
          /\ is_Some (r_start r ≫= line) /\ r_end r = None)
  /\ (_parse_finding r = Raise (KeyError "message")
      <-> is_Some (r_check_id r) /\ is_Some (r_path r)
          /\ is_Some (r_start r ≫= line) /\ is_Some (r_end r ≫= line)
          /\ r_extra r ≫= ex_message = None).
Proof.
  split; [intros key; apply _parse_finding_Raise_iff|].
  split.
  { intros e He. pose proof (_parse_finding_required r) as Hr.
    destruct (required_fields r) as [q|].
    - destruct Hr as (f & Hf & _). congruence.
    - destruct Hr as (key & _ & Hkey). exists key. congruence. }
  destruct r as [[c|] [p|] [[[s|]]|] [[[e|]]|] [[[m|] sev ln fp md]|]];
    cbn; repeat split; intros;
    repeat match goal with
           | H : _ /\ _ |- _ => destruct H
           | H : _ \/ _ |- _ => destruct H
           | H : is_Some None |- _ => by destruct H
           end; try done; try (by left); try (by right).
Qed.

(** X3: the optional values a record carries are copied into the finding
    as they are (a severity outside ERROR, WARNING, INFO included); the
    absent ones get their defaults. *)
Theorem parse_finding_keeps_present_values r f :
  _parse_finding r = Return f ->
  let md := r_extra r ≫= ex_metadata in
  severity f = default "UNKNOWN" (r_extra r ≫= ex_severity)
  /\ confidence f = default "UNKNOWN" (md ≫= md_confidence)
  /\ category f = default "unknown" (md ≫= md_category)
  /\ technology f = default [] (md ≫= md_technology)
  /\ cwe f = default [] (md ≫= md_cwe)
  /\ owasp f = default [] (md ≫= md_owasp)
  /\ references f = default [] (md ≫= md_references)
  /\ shortlink f = md ≫= md_shortlink
  /\ lines f = r_extra r ≫= ex_lines
  /\ fingerprint f = r_extra r ≫= ex_fingerprint.
Proof.
  destruct r as [[c|] [p|] [[[s|]]|] [[[e|]]|] [[[m|] sev ln fp md]|]]; try done.
  intros [= <-]. cbn. destruct sev, md as [[]|]; done.
Qed.


Lemma parse_finding_keeps_present_values_witness :
  exists f,
    _parse_finding rich_result = Return f
    /\ severity f = "CRITICAL" /\ confidence f = "HIGH" /\ category f = "unknown"
    /\ technology f = ["python"] /\ shortlink f = Some "https://sg.run/x"
    /\ lines f = Some "x = 1" /\ fingerprint f = None.
Proof.
  eexists. split; [reflexivity|].
  destruct (parse_finding_keeps_present_values rich_result _ eq_refl)
    as (Hs & Hc & Hcat & Ht & _ & _ & _ & Hsl & Hl & Hf).
  split; [exact Hs|]. split; [exact Hc|]. split; [exact Hcat|].
  split; [exact Ht|]. split; [exact Hsl|]. split; [exact Hl|exact Hf].
Defined.

(** X4: [_parse_semgrep_data] raises the error of the first record that
    fails to parse; the records after it are not looked at. *)
Theorem first_offending_record_decides data good bad rest e :
  dict_get (d_results data) [] = good ++ bad :: rest ->
  Forall (fun r => is_Some (required_fields r)) good ->
  _parse_finding bad = Raise e ->
  _parse_semgrep_data data = Raise e.
Proof.
  intros Hres Hgood Hbad.
  destruct (parse_loop_valid good [] Hgood) as (parsed & _ & Hparsed).
  unfold _parse_semgrep_data. simpl. rewrite Hres.
  rewrite (parse_loop_app _ _ _ _ Hparsed). simpl. by rewrite Hbad.
Qed.

Lemma first_offending_record_decides_witness :
  _parse_semgrep_data
    (doc_of [ result_of (Some "INFO") "rule.a" "a.py" 1 (Some "fine");
              result_of None "rule.b" "b.py" 2 None;
              {| r_check_id := None; r_path := None; r_start := None;
                 r_end := None; r_extra := None |} ])
  = Raise (KeyError "message").
Proof.
  apply (first_offending_record_decides _
           [result_of (Some "INFO") "rule.a" "a.py" 1 (Some "fine")]
           (result_of None "rule.b" "b.py" 2 None)
           [{| r_check_id := None; r_path := None; r_start := None;
               r_end := None; r_extra := None |}]).
  - reflexivity.
  - repeat constructor. by eexists.
  - reflexivity.
Defined.

(** X5: [_parse_semgrep_data] returns a report exactly when every record
    of the results has its required fields. *)
Theorem normalization_succeeds_iff data :
  (exists report, _parse_semgrep_data data = Return report)
  <-> Forall (fun r => is_Some (required_fields r)) (dict_get (d_results data) []).
Proof.
  split.
  - intros [report H]. apply _parse_semgrep_data_Return in H as (parsed & Hp & _).
    induction Hp as [|r f rs fs Hf _ IH]; constructor; [|done].
    apply parse_finding_succeeds_iff. by exists f.
  - intros H. destruct (parse_loop_valid _ [] H) as (parsed & Hloop & _).
    unfold _parse_semgrep_data. simpl in *. rewrite Hloop. by eexists.
Qed.

(** ** The order of the findings, further *)

Lemma sort_findings_fixed fs :
  ascending fs -> list_sort key_ltb finding_key fs = fs.
Proof.
  intros H. apply (list_sort_sorted_id key_ltb finding_key
                     key_ltb_irrefl key_ltb_trans key_ltb_total).
  eapply StronglySorted_weaken; [|exact H].
  intros f g Hfg. apply key_ltb_le. by rewrite !finding_key_composite.
Qed.

(** X6: the findings of a returned report are a fixed point of the sort:
    sorting them again changes nothing. *)
Theorem report_findings_sort_fixed_point data report :
  _parse_semgrep_data data = Return report ->
  list_sort key_ltb finding_key (findings report) = findings report.
Proof.
  intros H. apply _parse_semgrep_data_Return in H as (parsed & _ & ->). simpl.
  apply sort_findings_fixed, sort_findings_ascending.
Qed.

Lemma Forall2_finding_of rs fs :
  Forall2 (fun r f => _parse_finding r = Return f) rs fs -> fs = omap finding_of rs.
Proof.
  induction 1 as [|r f rs fs Hf _ IH]; [done|].
  cbn. unfold finding_of at 1. rewrite Hf. by rewrite IH.
Qed.

(** X7: when no two findings share a sort key, the order of the findings
    does not depend on the order of the results: two documents whose
    results are permutations of each other give the same findings. *)
Theorem findings_order_independent_of_input_order d1 d2 r1 r2 :
  _parse_semgrep_data d1 = Return r1 ->
  _parse_semgrep_data d2 = Return r2 ->
  dict_get (d_results d1) [] ≡ₚ dict_get (d_results d2) [] ->
  NoDup (composite_key <$> findings r1) ->
  findings r1 = findings r2.
Proof.
  intros H1 H2 Hp Hnd.
  apply _parse_semgrep_data_Return in H1 as (p1 & Hp1 & ->).
  apply _parse_semgrep_data_Return in H2 as (p2 & Hp2 & ->). simpl in *.
  apply Forall2_finding_of in Hp1, Hp2. subst p1 p2.
  apply (list_sort_perm_distinct key_ltb finding_key
           key_ltb_irrefl key_ltb_trans key_ltb_total).
  - by rewrite Hp.
  - rewrite sort_findings_perm in Hnd.
    by erewrite list_fmap_ext; [exact Hnd|intros; apply finding_key_composite].
Qed.

Lemma report_findings_sort_fixed_point_witness :
  exists report,
    _parse_semgrep_data three_severities = Return report
    /\ list_sort key_ltb finding_key (findings report) = findings report.
Proof.
  eexists. split; [reflexivity|].
  apply (report_findings_sort_fixed_point three_severities). reflexivity.
Defined.


Lemma findings_order_independent_of_input_order_witness :
  exists r1 r2,
    _parse_semgrep_data two_files_then_error = Return r1
    /\ _parse_semgrep_data error_then_two_files = Return r2
    /\ findings r1 = findings r2.
Proof.
  eexists _, _. split; [reflexivity|]. split; [reflexivity|].
  apply (findings_order_independent_of_input_order
           two_files_then_error error_then_two_files); [reflexivity|reflexivity| |].
  - apply (Permutation_rev
             [ result_of (Some "INFO") "rule.a" "a.py" 1 (Some "m");
               result_of (Some "INFO") "rule.b" "a.py" 9 (Some "m");
               result_of (Some "ERROR") "rule.c" "z.py" 5 (Some "m") ]).
  - apply (bool_decide_unpack _). vm_compute. exact I.
Defined.

Lemma filter_none {A : Type} (P : A -> Prop) `{forall a, Decision (P a)} (l : list A) :
  Forall (fun a => ~ P a) l -> filter P l = [].
Proof.
  induction 1 as [|a l Ha _ IH]; [done|]. by rewrite filter_cons_False.
Qed.

(** Findings of one severity rank come before those of a higher one. *)
Lemma ascending_rank_groups fs :
  ascending fs ->
  fs = filter (fun f => severity_rank (severity f) = 0%Z) fs
       ++ filter (fun f => severity_rank (severity f) = 1%Z) fs
       ++ filter (fun f => severity_rank (severity f) = 2%Z) fs
       ++ filter (fun f => severity_rank (severity f) = 3%Z) fs.
Proof.
  assert (Hrank : forall s, (severity_rank s = 0 \/ severity_rank s = 1
                             \/ severity_rank s = 2 \/ severity_rank s = 3)%Z).
  { intros s. unfold severity_rank. repeat case_decide; tauto. }
  induction 1 as [|f fs Hs IH Hf]; [done|].
  assert (Hnil : forall n, (n < severity_rank (severity f))%Z ->
            filter (fun g => severity_rank (severity g) = n) fs = []).
  { intros n Hn. apply filter_none. eapply Forall_impl; [exact Hf|].
    intros g [Hlt|Heq].
    - unfold composite_key, key_lt in Hlt. lia.
    - injection Heq as Heq _ _. lia. }
  rewrite !filter_cons.
  destruct (Hrank (severity f)) as [Hr|[Hr|[Hr|Hr]]];
    repeat case_decide; try lia; simpl;
    rewrite ?(Hnil 0%Z), ?(Hnil 1%Z), ?(Hnil 2%Z) by lia; simpl; f_equal;
    (etrans; [exact IH|]);
    rewrite ?(Hnil 0%Z), ?(Hnil 1%Z), ?(Hnil 2%Z) by lia; done.
Qed.

Lemma not_in_severities s :
  s ∉ severities <-> s ≠ "ERROR" /\ s ≠ "WARNING" /\ s ≠ "INFO".
Proof.
  unfold severities. rewrite !not_elem_of_cons.
  pose proof (not_elem_of_nil s). tauto.
Qed.

Lemma severity_rank_inv s :
  (severity_rank s = 0%Z <-> s = "ERROR")
  /\ (severity_rank s = 1%Z <-> s = "WARNING")
  /\ (severity_rank s = 2%Z <-> s = "INFO")
  /\ (severity_rank s = 3%Z <-> s ∉ severities).
Proof.
  rewrite not_in_severities. unfold severity_rank.
  repeat case_decide; subst; repeat split; try done; tauto.
Qed.

(** X8: the findings of a returned report are grouped by severity: the
    ERROR findings, then WARNING, then INFO, then all the others. *)
Theorem findings_grouped_by_severity data report :
  _parse_semgrep_data data = Return report ->
  findings report
  = filter (fun f => severity f = "ERROR") (findings report)
    ++ filter (fun f => severity f = "WARNING") (findings report)
    ++ filter (fun f => severity f = "INFO") (findings report)
    ++ filter (fun f => severity f ∉ severities) (findings report).
Proof.
  intros H. apply _parse_semgrep_data_Return in H as (parsed & _ & ->). simpl.
  pose proof (ascending_rank_groups _ (sort_findings_ascending parsed)) as Hg.
  rewrite (list_filter_iff (fun f => severity f = "ERROR")
             (fun f => severity_rank (severity f) = 0%Z))
    by (intros f; symmetry; apply severity_rank_inv).
  rewrite (list_filter_iff (fun f => severity f = "WARNING")
             (fun f => severity_rank (severity f) = 1%Z))
    by (intros f; symmetry; apply severity_rank_inv).
  rewrite (list_filter_iff (fun f => severity f = "INFO")
             (fun f => severity_rank (severity f) = 2%Z))
    by (intros f; symmetry; apply severity_rank_inv).
  rewrite (list_filter_iff (fun f => severity f ∉ severities)
             (fun f => severity_rank (severity f) = 3%Z))
    by (intros f; symmetry; apply severity_rank_inv).
  exact Hg.
Qed.

Lemma findings_grouped_by_severity_witness :
  exists report,
    _parse_semgrep_data three_severities = Return report
    /\ findings report
       = filter (fun f => severity f = "ERROR") (findings report)
         ++ filter (fun f => severity f = "WARNING") (findings report)
         ++ filter (fun f => severity f = "INFO") (findings report)
         ++ filter (fun f => severity f ∉ severities) (findings report).
Proof.
  eexists. split; [reflexivity|].
  apply (findings_grouped_by_severity three_severities). reflexivity.
Defined.

(** ** Statistics, further *)

Lemma find_key_fmap (g : string -> nat) k ks :
  List.find (fun kn : string * nat => String.eqb kn.1 k) ((fun k' => (k', g k')) <$> ks)
  = if decide (k ∈ ks) then Some (k, g k) else None.
Proof.
  induction ks as [|k' ks IH]; [done|].
  rewrite fmap_cons. cbn [List.find fst].
  destruct (String.eqb_spec k' k) as [->|Hne].
  - rewrite decide_True; [done|apply list_elem_of_here].
  - rewrite IH. destruct (decide (k ∈ ks)) as [Hin|Hout].
    + rewrite decide_True; [done|by apply list_elem_of_further].
    + rewrite decide_False; [done|]. rewrite elem_of_cons. by intros [->|?].
Qed.

Lemma occurrences_absent k xs : k ∉ xs -> occurrences k xs = 0.
Proof.
  intros Hk. unfold occurrences. rewrite filter_none; [done|].
  apply Forall_forall. by intros x Hx ->.
Qed.

Lemma breakdown_get_Counter xs k :
  breakdown_get (Counter xs) k 0 = occurrences k xs.
Proof.
  unfold breakdown_get. rewrite Counter_breakdown. unfold breakdown_of.
  rewrite find_key_fmap. destruct (decide (k ∈ first_seen xs)) as [Hin|Hout]; [done|].
  simpl. symmetry. apply occurrences_absent. by rewrite <- first_seen_elem.
Qed.

Lemma occurrences_fmap {A : Type} (g : A -> string) k (l : list A) :
  occurrences k (g <$> l) = length (filter (fun a => g a = k) l).
Proof.
  unfold occurrences. induction l as [|a l IH]; [done|].
  rewrite fmap_cons, !filter_cons.
  destruct (decide (g a = k)); simpl; by rewrite IH.
Qed.

(** X9: the count read from severity_breakdown with default 0, as the page
    shows it, is the number of findings of that severity (0 when there is
    none). *)
Theorem severity_count_shown (report : SemgrepReport) (sev : string) :
  breakdown_get (severity_breakdown (summary_stats report)) sev 0
  = length (filter (fun f => severity f = sev) (findings report)).
Proof.
  rewrite summary_stats_unfold. simpl.
  by rewrite breakdown_get_Counter, occurrences_fmap.
Qed.

Lemma known_severities_count xs :
  occurrences "ERROR" xs + occurrences "WARNING" xs + occurrences "INFO" xs
  = length (filter (fun s => s ∈ severities) xs).
Proof.
  induction xs as [|x xs IH]; [done|].
  rewrite !occurrences_cons, filter_cons.
  destruct (decide (x ∈ severities)) as [Hin|Hout].
  - unfold severities in Hin. rewrite !elem_of_cons, elem_of_nil in Hin.
    destruct Hin as [->|[->|[->|[]]]]; simpl; lia.
  - apply not_in_severities in Hout as (? & ? & ?).
    rewrite !decide_False by done. simpl. lia.
Qed.

Lemma filter_length_all {A : Type} (P : A -> Prop) `{forall a, Decision (P a)}
    (l : list A) :
  length (filter P l) = length l <-> Forall P l.
Proof.
  split; [|intros Hl; by rewrite filter_all].
  induction l as [|a l IH]; [constructor|].
  rewrite filter_cons. pose proof (length_filter P l).
  destruct (decide (P a)); simpl; intros Hlen; [|lia].
  constructor; [done|]. apply IH. lia.
Qed.

(** X10: the three counts of the chart are the numbers of ERROR, WARNING
    and INFO findings; they add up to at most total_findings, and to
    exactly total_findings only when every finding has one of these three
    severities. *)
Theorem chart_counts_cover_known_severities (report : SemgrepReport) :
  let st := summary_stats report in
  chart_counts (severity_breakdown st)
  = [ length (filter (fun f => severity f = "ERROR") (findings report));
      length (filter (fun f => severity f = "WARNING") (findings report));
      length (filter (fun f => severity f = "INFO") (findings report)) ]
  /\ sum_list (chart_counts (severity_breakdown st)) <= total_findings st
  /\ (sum_list (chart_counts (severity_breakdown st)) = total_findings st
      <-> Forall (fun f => severity f ∈ severities) (findings report)).
Proof.
  intros st. subst st.
  assert (Hc : chart_counts (severity_breakdown (summary_stats report))
    = [ length (filter (fun f => severity f = "ERROR") (findings report));
        length (filter (fun f => severity f = "WARNING") (findings report));
        length (filter (fun f => severity f = "INFO") (findings report)) ]).
  { unfold chart_counts, severities. rewrite !fmap_cons, fmap_nil.
    by rewrite !severity_count_shown. }
  split; [exact Hc|]. rewrite Hc, summary_stats_unfold.
  cbn [sum_list sum_list_with total_findings].
  rewrite <- !occurrences_fmap.
  pose proof (known_severities_count (severity <$> findings report)) as Hk.
  pose proof (length_filter (fun s => s ∈ severities) (severity <$> findings report)) as Hl.
  rewrite length_fmap in Hl.
  assert (Hall : Forall (fun f => severity f ∈ severities) (findings report)
                 <-> Forall (fun s => s ∈ severities) (severity <$> findings report))
    by (by rewrite Forall_fmap).
  rewrite Hall, <- (filter_length_all (fun s => s ∈ severities)), length_fmap.
  unfold id. split; [lia|]. split; lia.
Qed.

(** X11: for a report parsed from a document, total_findings,
    total_errors and files_scanned are the lengths of the document's
    results, errors and paths.scanned (each empty when absent). *)
Theorem totals_count_the_document data report :
  _parse_semgrep_data data = Return report ->
  let st := summary_stats report in
  total_findings st = length (dict_get (d_results data) [])
  /\ total_errors st = length (dict_get (d_errors data) [])
  /\ files_scanned st = length (dict_get (d_paths data ≫= scanned) []).
Proof.
  intros H. apply _parse_semgrep_data_Return in H as (parsed & Hp & ->). simpl.
  split; [|split; [done|by destruct (d_paths data)]].
  rewrite list_sort_length. symmetry. by eapply Forall2_length.
Qed.

Lemma totals_count_the_document_witness :
  exists report,
    _parse_semgrep_data full_document = Return report
    /\ total_findings (summary_stats report) = 1
    /\ total_errors (summary_stats report) = 2
    /\ files_scanned (summary_stats report) = 3.
Proof.
  eexists. split; [reflexivity|].
  exact (totals_count_the_document full_document _ eq_refl).
Defined.

Lemma sum_list_take_le n (l : list nat) : sum_list (take n l) <= sum_list l.
Proof.
  revert n. induction l as [|x l IH]; intros [|n]; simpl; try lia.
  specialize (IH n). lia.
Qed.

Lemma sum_list_perm (l1 l2 : list nat) : l1 ≡ₚ l2 -> sum_list l1 = sum_list l2.
Proof. induction 1; simpl; lia. Qed.

Lemma sort_desc_sum (c : list (string * nat)) :
  sum_list ((list_sort (fun a b => Nat.ltb b a) snd c).*2) = sum_list (c.*2).
Proof. apply sum_list_perm. by rewrite list_sort_perm. Qed.

(** X12: the values of confidence_breakdown and of category_breakdown add
    up to total_findings; the counts of top_issues add up to at most
    total_findings, and with at most 5 distinct check_ids top_issues holds
    every check_id and its counts add up to total_findings. *)
Theorem breakdowns_and_top_issues_add_up (report : SemgrepReport) :
  let st := summary_stats report in
  sum_list ((confidence_breakdown st).*2) = total_findings st
  /\ sum_list ((category_breakdown st).*2) = total_findings st
  /\ sum_list ((top_issues st).*2) <= total_findings st
  /\ (length (first_seen (check_id <$> findings report)) <= 5 ->
      top_issues st ≡ₚ breakdown_of (check_id <$> findings report)
      /\ sum_list ((top_issues st).*2) = total_findings st).
Proof.
  intros st. subst st. rewrite summary_stats_unfold.
  cbn [confidence_breakdown category_breakdown top_issues total_findings].
  rewrite !Counter_sum, !length_fmap. split; [done|]. split; [done|].
  set (ids := check_id <$> findings report).
  assert (Htotal : sum_list ((Counter ids).*2) = length (findings report))
    by (unfold ids; by rewrite Counter_sum, length_fmap).
  unfold most_common. split.
  - rewrite fmap_take, <- Htotal, <- sort_desc_sum. apply sum_list_take_le.
  - intros Hlen. rewrite take_ge.
    + split; [by rewrite list_sort_perm, Counter_breakdown|].
      by rewrite sort_desc_sum.
    + by rewrite list_sort_length, Counter_breakdown, <- breakdown_of_keys, length_fmap
        in *.
Qed.

Lemma Forall2_severity rs fs :
  Forall2 (fun r f => _parse_finding r = Return f) rs fs ->
  severity <$> fs = severity_of_result <$> rs.
Proof.
  induction 1 as [|r f rs fs Hf _ IH]; [done|].
  rewrite !fmap_cons, IH. f_equal.
  by destruct (parse_finding_keeps_present_values r f Hf) as [-> _].
Qed.

Lemma Forall2_path rs fs :
  Forall2 (fun r f => _parse_finding r = Return f) rs fs ->
  Some <$> (path <$> fs) = r_path <$> rs.
Proof.
  induction 1 as [|r f rs fs Hf _ IH]; [done|].
  rewrite !fmap_cons, IH. f_equal.
  apply _parse_finding_Return in Hf.
  destruct r as [[c|] [p|] [[[s|]]|] [[[e|]]|] [[[m|] ? ? ? ?]|]]; try done.
  by injection Hf as _ -> _ _ _.
Qed.

Lemma occurrences_perm k xs ys : xs ≡ₚ ys -> occurrences k xs = occurrences k ys.
Proof. intros H. unfold occurrences. by rewrite H. Qed.

(** X13: the statistics of a parsed report count the input records: the
    count shown for a severity is the number of records with that severity
    (UNKNOWN when absent), and files_affected is the number of distinct
    paths of the records. *)
Theorem statistics_count_the_input_records data report :
  _parse_semgrep_data data = Return report ->
  let st := summary_stats report in
  let results := dict_get (d_results data) [] in
  (forall sev,
     breakdown_get (severity_breakdown st) sev 0
     = length (filter (fun r => severity_of_result r = sev) results))
  /\ files_affected st = size (list_to_set (omap r_path results) : gset string).
Proof.
  intros H st results. subst st results.
  apply _parse_semgrep_data_Return in H as (parsed & Hp & ->).
  rewrite summary_stats_unfold. cbn [severity_breakdown files_affected findings].
  split.
  - intros sev. rewrite breakdown_get_Counter.
    rewrite (occurrences_perm _ _ (severity <$> parsed))
      by (by rewrite sort_findings_perm).
    by rewrite (Forall2_severity _ _ Hp), occurrences_fmap.
  - f_equal. rewrite sort_findings_perm.
    assert (Hpaths : path <$> parsed = omap r_path (dict_get (d_results data) [])).
    { apply Forall2_path in Hp. revert Hp.
      generalize (path <$> parsed) (dict_get (d_results data) []).
      induction l as [|p l IH]; intros [|r rs]; try done.
      rewrite !fmap_cons. intros [= Hr Hrest]. cbn. rewrite <- Hr. cbn.
      f_equal. by apply IH. }
    by rewrite Hpaths.
Qed.

Lemma statistics_count_the_input_records_witness :
  exists report,
    _parse_semgrep_data two_files_then_error = Return report
    /\ breakdown_get (severity_breakdown (summary_stats report)) "INFO" 0 = 2
    /\ breakdown_get (severity_breakdown (summary_stats report)) "WARNING" 0 = 0
    /\ files_affected (summary_stats report) = 2.
Proof.
  eexists. split; [reflexivity|].
  destruct (statistics_count_the_input_records two_files_then_error _ eq_refl)
    as [Hsev Hfiles].
  split; [exact (Hsev "INFO")|]. split; [exact (Hsev "WARNING")|].
  rewrite Hfiles. reflexivity.
Defined.

(** ** Writing the report *)






(** ** Reading the findings payload back *)

Lemma strings_of_json_fmap l : mapM string_of_json (JStr <$> l) = Some l.
Proof. by apply mapM_fmap_Some. Qed.

Lemma finding_of_dict_finding_dict f : finding_of_dict (finding_dict f) = Some f.
Proof.
  destruct f as [c p s e sev conf m cat tech cw ow refs sl ln fp].
  unfold finding_of_dict, finding_dict. cbn.
  rewrite !strings_of_json_fmap. cbn.
  by destruct sl, ln, fp.
Qed.

(** X16: the findings payload loses nothing: reading the dicts back gives
    the findings of the report, in order, [None] and strings told apart. *)
Theorem findings_payload_round_trip (report : SemgrepReport) :
  findings_of_payload (findings_json (_generate_html report)) = Some (findings report).
Proof.
  unfold _generate_html, findings_of_payload. cbn [findings_json].
  apply mapM_fmap_Some, finding_of_dict_finding_dict.
Qed.

Example string_error_entry_aborts :
  generate_report (Holds string_in_errors) "report.html" obliging_os ∅
  = (Raise (AttributeError "get"), ∅)
  /\ main (Holds string_in_errors) "report.html" obliging_os ∅ = (1, ∅).
Proof. split; reflexivity. Qed.

Example failed_write_leaves_truncated_file :
  exists old,
    (main (Holds full_document) "report.html" obliging_os ∅).2 !! "report.html"
    = Some (Page old)
    /\ main (Holds full_document) "report.html" full_disk_os
         {[ "report.html" := Page old ]}
       = (1, {[ "report.html" := Truncated ]}).
Proof.
  eexists. split; [reflexivity|].
  unfold main, generate_report. cbn. by rewrite insert_singleton_eq.
Qed.
